(** * Elm mirror server: registry, sync pipeline, serving layer, verifier

    A shallow embedding of [elm_mirror.py].  Paths and identifiers are
    [string]s (WSGI hands the application latin-1 text, so one character
    is one byte), file contents are [list byte], the registry is the list
    of [{"id", "status"}] entries held under its ["packages"] key, the
    allow-list and the set of known identifiers are [gset string], and the
    content store is a [gmap] from paths below the mirror directory to file
    contents.  Python exceptions are values of [exn]; a computation that
    may raise returns [exn + A]. *)

From Stdlib Require Import ZArith List Ascii String Lia Bool Arith.
From Stdlib.Strings Require Import Byte.
From Stdlib Require Import DecimalString DecimalNat.
From Equations Require Import Equations.
From stdpp Require Import base option list strings gmap.
Import ListNotations.

Set Warnings "-register-all,-abstract-large-number,-clear-no-such-hyp".

Local Open Scope string_scope.
Local Open Scope list_scope.

(** ** Constants *)

Definition ELM_PACKAGE_SERVER : string := "https://package.elm-lang.org".

Definition STATUS_SUCCESS : string := "success".
Definition STATUS_PENDING : string := "pending".
Definition STATUS_FAILED : string := "failed".
Definition STATUS_IGNORED : string := "ignored".

(** ** Registry management *)

(** One element of [registry["packages"]]. *)
Record entry := Entry { id : string; status : string }.

(** [registry["packages"]]: an ordered list, duplicates possible. *)
Definition Registry := list entry.

(** [get_package_status]: the status of the first entry carrying the
    identifier, [None] when no entry does. *)
Fixpoint get_package_status (registry : Registry) (package_id : string)
  : option string :=
  match registry with
  | [] => None
  | pkg :: rest =>
      if String.eqb (id pkg) package_id then Some (status pkg)
      else get_package_status rest package_id
  end.

(** [set_package_status]: overwrite the status of the first entry carrying
    the identifier and return; append a fresh entry when the loop ends
    without finding one. *)
Fixpoint set_package_status (registry : Registry) (package_id st : string)
  : Registry :=
  match registry with
  | [] => [Entry package_id st]
  | pkg :: rest =>
      if String.eqb (id pkg) package_id then Entry (id pkg) st :: rest
      else pkg :: set_package_status rest package_id st
  end.

Definition ids (registry : Registry) : list string := map id registry.

(** ** Text helpers (the [str] methods and operators the program uses) *)

Definition newline : ascii := "010"%char.

(** [s.startswith(p)] *)
Definition startswith (p s : string) : bool := String.prefix p s.

(** [s.endswith(suf)] *)
Fixpoint endswith (suf s : string) : bool :=
  String.eqb suf s ||
  match s with
  | EmptyString => false
  | String _ r => endswith suf r
  end.

(** [sub in s] *)
Fixpoint contains (sub s : string) : bool :=
  String.prefix sub s ||
  match s with
  | EmptyString => false
  | String _ r => contains sub r
  end.

(** [s.lstrip(c)] for a one-character argument *)
Fixpoint lstrip (c : ascii) (s : string) : string :=
  match s with
  | EmptyString => EmptyString
  | String a r => if Ascii.eqb a c then lstrip c r else s
  end.

(** [s.rstrip(c)] for a one-character argument *)
Fixpoint rstrip (c : ascii) (s : string) : string :=
  match s with
  | EmptyString => EmptyString
  | String a r =>
      match rstrip c r with
      | EmptyString => if Ascii.eqb a c then EmptyString else String a EmptyString
      | r' => String a r'
      end
  end.

(** The last character, which a suffix shares with the whole text. *)
Fixpoint last_char (s : string) : option ascii :=
  match s with
  | EmptyString => None
  | String c r => match r with EmptyString => Some c | _ => last_char r end
  end.

Definition nonempty (s : string) : bool :=
  match s with EmptyString => false | String _ _ => true end.

(** The text after a literal prefix, when the prefix is there. *)
Fixpoint strip_prefix (p s : string) : option string :=
  match p, s with
  | EmptyString, _ => Some s
  | String a p', String b s' => if Ascii.eqb a b then strip_prefix p' s' else None
  | String _ _, EmptyString => None
  end.

(** Cut at the first occurrence of [c]: what a greedy character class
    excluding [c], followed by a literal [c], captures and leaves. *)
Fixpoint split_first (c : ascii) (s : string) : option (string * string) :=
  match s with
  | EmptyString => None
  | String a r =>
      if Ascii.eqb a c then Some (EmptyString, r)
      else match split_first c r with
           | Some (x, y) => Some (String a x, y)
           | None => None
           end
  end.

(** Python's [$] (without [re.MULTILINE]) matches at the end of the text
    and also just before a newline that is its last character: [chomp]
    removes that one newline. *)
Fixpoint chomp (s : string) : string :=
  match s with
  | EmptyString => EmptyString
  | String a r =>
      match r with
      | EmptyString => if Ascii.eqb a newline then EmptyString else s
      | String _ _ => String a (chomp r)
      end
  end.

Fixpoint has_char (c : ascii) (s : string) : bool :=
  match s with
  | EmptyString => false
  | String a r => Ascii.eqb a c || has_char c r
  end.

(** [str(n)] and [int(s)] on decimal text.  Within latin-1 the class [\d]
    is exactly the ten ASCII digits. *)
Definition str_of_nat (n : nat) : string :=
  NilEmpty.string_of_uint (Nat.to_uint n).

(** A match of [\d+]: at least one character, all of them digits. *)
Definition is_digits (s : string) : bool :=
  nonempty s
  && match NilEmpty.uint_of_string s with Some _ => true | None => false end.

(** ** Exceptions *)

Inductive exn :=
| ValueError (msg : string)
| KeyError (key : string)
| TypeError
| JSONDecodeError
| UnicodeDecodeError
| URLError (url : string)
| OSError (path : string).

(** CPython converts a decimal text of at most this many digits
    ([sys.int_info.default_max_str_digits]); [int] refuses a longer one. *)
Definition int_max_str_digits : nat := 4300.

(** [int(s)].  On the text of a [\d+] group the only failure is the digit
    limit, which counts every digit, leading zeros included. *)
Definition int_of_digits (s : string) : exn + nat :=
  if (int_max_str_digits <? String.length s)%nat then
    inl (ValueError
           ("Exceeds the limit (4300 digits) for integer string conversion: value has "
            +:+ str_of_nat (String.length s)
            +:+ " digits; use sys.set_int_max_str_digits() to increase the limit"))
  else
    match NilEmpty.uint_of_string s with
    | Some d =>
        if nonempty s then inr (Nat.of_uint d)
        else inl (ValueError "invalid literal for int() with base 10: ''")
    | None =>
        inl (ValueError ("invalid literal for int() with base 10: '" +:+ s +:+ "'"))
    end.

(** [except (json.JSONDecodeError, KeyError)] *)
Definition is_JSONDecodeError_or_KeyError (e : exn) : bool :=
  match e with
  | JSONDecodeError | KeyError _ => true
  | _ => false
  end.

(** ** Package identifiers *)

(** [parse_package_id]: [re.match(r"^([^/]+)/([^@]+)@(.+)$", package_id)].
    The first group is the text before the first [/], the second the text
    from there to the next [@]; both must be non-empty.  [.] excludes the
    newline, so the third group is the remainder up to [$]: non-empty,
    free of newlines, with one final newline left out of the group. *)
Definition parse_package_id (package_id : string)
  : exn + (string * string * string) :=
  match split_first "/" package_id with
  | Some (author, rest) =>
      match split_first "@" rest with
      | Some (name, tail) =>
          let version := chomp tail in
          if nonempty author && nonempty name && nonempty version
             && negb (has_char newline version)
          then inr (author, name, version)
          else inl (ValueError ("Invalid package ID: " +:+ package_id))
      | None => inl (ValueError ("Invalid package ID: " +:+ package_id))
      end
  | None => inl (ValueError ("Invalid package ID: " +:+ package_id))
  end.

(** ** Package list (allow-list) *)

(** [should_sync_package]: no list allows everything; otherwise the exact
    identifier or its [author/name] form must be in the list.  The parse
    happens only after the exact test failed, and may raise. *)
Definition should_sync_package (package_id : string)
    (package_list : option (gset string)) : exn + bool :=
  match package_list with
  | None => inr true
  | Some pl =>
      if bool_decide (package_id ∈ pl) then inr true
      else
        match parse_package_id package_id with
        | inl e => inl e
        | inr (author, name, _) =>
            let package_name := author +:+ "/" +:+ name in
            if bool_decide (package_name ∈ pl) then inr true else inr false
        end
  end.

(** ** [hashlib.sha1]

    The digest object of the standard library, after FIPS 180-4: five
    32-bit registers, the bytes of the unfinished 64-byte block, and the
    number of bytes fed so far.  Words are [Z] reduced modulo [2^32]. *)

Module SHA1.

Local Open Scope Z_scope.

Definition w32 (x : Z) : Z := x mod 2 ^ 32.

Definition rotl (n x : Z) : Z :=
  w32 (Z.lor (Z.shiftl x n) (Z.shiftr x (32 - n))).

Definition regs := (Z * Z * Z * Z * Z)%type.

Definition init_regs : regs :=
  (0x67452301, 0xEFCDAB89, 0x98BADCFE, 0x10325476, 0xC3D2E1F0).

Definition byte_val (b : byte) : Z := Z.of_N (Byte.to_N b).

Definition byte_of_Z (z : Z) : byte :=
  match Byte.of_N (Z.to_N (z mod 256)) with
  | Some b => b
  | None => x00
  end.

(** Big-endian words of a block. *)
Fixpoint words_of_bytes (l : list byte) : list Z :=
  match l with
  | a :: b :: c :: d :: r =>
      Z.lor (Z.shiftl (byte_val a) 24)
        (Z.lor (Z.shiftl (byte_val b) 16)
           (Z.lor (Z.shiftl (byte_val c) 8) (byte_val d)))
      :: words_of_bytes r
  | _ => []
  end.

(** The message schedule, kept newest word first while it grows. *)
Fixpoint extend (n : nat) (wrev : list Z) : list Z :=
  match n with
  | O => wrev
  | S n' =>
      let w := rotl 1 (Z.lxor (Z.lxor (nth 2 wrev 0) (nth 7 wrev 0))
                              (Z.lxor (nth 13 wrev 0) (nth 15 wrev 0))) in
      extend n' (w :: wrev)
  end.

Definition schedule (block : list byte) : list Z :=
  rev (extend 64 (rev (words_of_bytes block))).

Definition round (t : nat) (st : regs) (w : Z) : regs :=
  let '(a, b, c, d, e) := st in
  let '(f, k) :=
    if (t <? 20)%nat then
      (Z.lor (Z.land b c) (Z.land (Z.lnot b) d), 0x5A827999)
    else if (t <? 40)%nat then
      (Z.lxor (Z.lxor b c) d, 0x6ED9EBA1)
    else if (t <? 60)%nat then
      (Z.lor (Z.lor (Z.land b c) (Z.land b d)) (Z.land c d), 0x8F1BBCDC)
    else
      (Z.lxor (Z.lxor b c) d, 0xCA62C1D6) in
  (w32 (rotl 5 a + f + e + k + w), a, rotl 30 b, c, d).

Fixpoint rounds (t : nat) (ws : list Z) (st : regs) : regs :=
  match ws with
  | [] => st
  | w :: ws' => rounds (S t) ws' (round t st w)
  end.

Definition compress (h : regs) (block : list byte) : regs :=
  let '(h0, h1, h2, h3, h4) := h in
  let '(a, b, c, d, e) := rounds 0 (schedule block) h in
  (w32 (h0 + a), w32 (h1 + b), w32 (h2 + c), w32 (h3 + d), w32 (h4 + e)).

(** Consume every complete 64-byte block of the buffer. *)
Equations? absorb (h : regs) (buf : list byte) : regs * list byte
  by wf (length buf) lt :=
  absorb h buf with le_lt_dec 64 (length buf) := {
    | left _ := absorb (compress h (take 64 buf)) (drop 64 buf);
    | right _ := (h, buf) }.
Proof. rewrite length_drop. lia. Qed.

Record t := State { h : regs; pending : list byte; total : nat }.

(** [hashlib.sha1()] *)
Definition new : t := State init_regs [] 0.

(** [m.update(data)] *)
Definition update (m : t) (data : list byte) : t :=
  let '(h', rest) := absorb (h m) (pending m ++ data) in
  State h' rest (total m + length data).

(** The eight bytes of the bit length, most significant first. *)
Definition be64 (n : Z) : list byte :=
  map (fun i => byte_of_Z (Z.shiftr n (8 * Z.of_nat i))) [7; 6; 5; 4; 3; 2; 1; 0]%nat.

Definition padding (total : nat) : list byte :=
  let m := (total mod 64)%nat in
  let k := if (m <=? 55)%nat then (55 - m)%nat else (119 - m)%nat in
  x80 :: repeat x00 k ++ be64 (8 * Z.of_nat total).

Definition hex_digit (z : Z) : ascii :=
  if z <? 10 then ascii_of_N (Z.to_N (48 + z)) else ascii_of_N (Z.to_N (87 + z)).

Definition hex_word (w : Z) : string :=
  fold_right (fun i acc => String (hex_digit (Z.shiftr w (4 * Z.of_nat i) mod 16)) acc)
    EmptyString [7; 6; 5; 4; 3; 2; 1; 0]%nat.

(** [m.hexdigest()] *)
Definition hexdigest (m : t) : string :=
  let '(a, b, c, d, e) := fst (absorb (h m) (pending m ++ padding (total m))) in
  hex_word a +:+ hex_word b +:+ hex_word c +:+ hex_word d +:+ hex_word e.

End SHA1.

(** ** Digest of a file *)

(** Case analysis that keeps the equation with the scrutinee. *)
Definition inspect {A : Type} (x : A) : {y : A | x = y} := exist _ x eq_refl.

(** The loop of [compute_sha1] over the unread part of the file:
    [f.read(chunk_size)] returns the next [chunk_size] bytes (fewer at the
    end), an empty read ends the loop, every other chunk goes to
    [update]. *)
Equations? sha1_feed (chunk_size : nat) (m : SHA1.t) (unread : list byte)
  : SHA1.t by wf (length unread) lt :=
  sha1_feed chunk_size m unread with inspect (take chunk_size unread) := {
    | exist _ [] _ := m;
    | exist _ (b :: bs) _ :=
        sha1_feed chunk_size (SHA1.update m (b :: bs)) (drop chunk_size unread) }.
Proof.
  rewrite length_drop.
  destruct chunk_size; [discriminate|].
  destruct unread; [discriminate|]. simpl. lia.
Qed.

(** [compute_sha1] on the contents of the file, for a given read size. *)
Definition compute_sha1_chunked (chunk_size : nat) (contents : list byte) : string :=
  SHA1.hexdigest (sha1_feed chunk_size SHA1.new contents).

(** [compute_sha1] reads 8192 bytes at a time. *)
Definition compute_sha1 (contents : list byte) : string :=
  compute_sha1_chunked 8192 contents.

(** ** JSON values

    What [json.load] returns and [json.dump] takes.  An object carries the
    items of the resulting [dict] (one per key); numbers are kept to the
    integers, as no code path inspects one. *)

Inductive json :=
| JNull
| JBool (b : bool)
| JNum (z : Z)
| JStr (s : string)
| JArr (l : list json)
| JObj (items : list (string * json)).

Fixpoint assoc (k : string) (items : list (string * json)) : option json :=
  match items with
  | [] => None
  | (k', v) :: rest => if String.eqb k' k then Some v else assoc k rest
  end.

(** [value[key]] with a text key: [KeyError] on a dict without the key,
    [TypeError] on anything that is not a dict. *)
Definition getitem (value : json) (key : string) : exn + json :=
  match value with
  | JObj items =>
      match assoc key items with
      | Some v => inr v
      | None => inl (KeyError key)
      end
  | _ => inl TypeError
  end.

(** [text != value] for a [str] on the left: equal only to the same text. *)
Definition str_ne (text : string) (value : json) : bool :=
  match value with
  | JStr s => negb (String.eqb text s)
  | _ => true
  end.

(** ** The world outside the program

    [files] are the regular files below the mirror directory, keyed by
    their path relative to it.  The remaining fields are the library and
    operating-system calls whose results the program only observes:
    [json_loads] is [json.load]/[json.loads] on the contents read,
    [json_dumps] the text [json.dump] writes (with its [indent]),
    [urlopen] the body [fetch_url] gets for a URL, and [os_fault] tells
    for which file-system operations the system raises.  A write that
    raises may have got as far as creating or truncating the file and
    putting part of the data there: [written] tells how many bytes of the
    data are in the file then, and is [None] when the file could not even
    be opened.

    A file is named by the path the program builds for it.  For a path
    whose components are [plain] (see below) this is also the file the
    operating system resolves the path to; the statements about which
    files a step leaves alone are made for such paths. *)

Inductive fs_op :=
| OpMkdir (path : string)
| OpWrite (path : string)
| OpRename (src dst : string)
| OpRead (path : string).

Record Env := {
  json_loads : list byte -> exn + json;
  json_dumps : option nat -> json -> list byte;
  urlopen : string -> exn + list byte;
  os_fault : fs_op -> option exn;
  written : string -> option nat
}.

Abbreviation Files := (gmap string (list byte)).

(** [path.exists()]; the serving layer's [is_file()] agrees with it, since
    only regular files are stored.  Errors of the file system that
    [exists()] itself lets through (a name too long, for one) are not part
    of this world. *)
Definition file_exists (fs : Files) (path : string) : bool :=
  bool_decide (is_Some (fs !! path)).

(** [mirror_dir / "packages" / author / name / version] *)
Definition package_dir (author name version : string) : string :=
  "packages/" +:+ author +:+ "/" +:+ name +:+ "/" +:+ version.

(** ** Registry file *)

Definition entry_of_json (j : json) : exn + entry :=
  match getitem j "id", getitem j "status" with
  | inr (JStr i), inr (JStr s) => inr (Entry i s)
  | inl e, _ => inl e
  | _, inl e => inl e
  | _, _ => inl TypeError
  end.

Fixpoint entries_of_json (l : list json) : exn + Registry :=
  match l with
  | [] => inr []
  | j :: rest =>
      match entry_of_json j, entries_of_json rest with
      | inr e, inr es => inr (e :: es)
      | inl x, _ => inl x
      | _, inl x => inl x
      end
  end.

(** The typed reading of the loaded document: an object whose
    ["packages"] is a list of [{"id": text, "status": text}].  Python
    keeps the raw [dict] and would raise on first use of a misshapen part;
    here the shape is checked when the document is loaded. *)
Definition registry_of_json (j : json) : exn + Registry :=
  match getitem j "packages" with
  | inr (JArr l) => entries_of_json l
  | inr _ => inl TypeError
  | inl e => inl e
  end.

Definition json_of_registry (registry : Registry) : json :=
  JObj [("packages",
         JArr (map (fun pkg => JObj [("id", JStr (id pkg));
                                     ("status", JStr (status pkg))]) registry))].

(** [load_registry]: the persisted state, or the empty registry when
    [registry.json] does not exist.  The program keeps what [json.load]
    returns and fails where it first reads a part that is not there; the
    registry here is typed, so a file of another shape fails at the load.
    Statements about a registry are about one of the right shape. *)
Definition load_registry (E : Env) (fs : Files) : exn + Registry :=
  match fs !! "registry.json" with
  | Some text =>
      match json_loads E text with
      | inr j => registry_of_json j
      | inl e => inl e
      end
  | None => inr []
  end.

(** ** WSGI application *)

Inductive body :=
| JsonBody (j : json)      (* [json.dumps(j).encode("utf-8")] *)
| RawBody (b : list byte).

Record response := Response {
  code : nat;
  reason : string;
  content_type : string;
  content : body
}.

Record ElmMirrorApp := App {
  base_url : string;
  registry : Registry
}.

(** [ElmMirrorApp.__init__] *)
Definition ElmMirrorApp_init (E : Env) (fs : Files) (base : string)
  : exn + ElmMirrorApp :=
  match load_registry E fs with
  | inr r => inr (App (rstrip "/" base) r)
  | inl e => inl e
  end.

(** [_error_response] *)
Definition error_response (status_code : nat) (message : string) : response :=
  let status_text :=
    match status_code with
    | 400 => "Bad Request"
    | 404 => "Not Found"
    | 405 => "Method Not Allowed"
    | 503 => "Service Unavailable"
    | _ => "Error"
    end in
  Response status_code status_text "application/json"
    (JsonBody (JObj [("error", JStr message)])).

Definition ok_response (ctype : string) (b : body) : response :=
  Response 200 "OK" ctype b.

(** [_serve_all_packages] *)
Definition serve_all_packages (fs : Files) : exn + response :=
  match fs !! "all-packages" with
  | None => inr (error_response 404 "all-packages not found")
  | Some data => inr (ok_response "application/json" (RawBody data))
  end.

(** [re.match(r"^/all-packages/since/(\d+)$", path)]: the group *)
Definition match_since (path : string) : option string :=
  match strip_prefix "/all-packages/since/" path with
  | Some rest => if is_digits (chomp rest) then Some (chomp rest) else None
  | None => None
  end.

(** [_serve_all_packages_since] *)
Definition serve_all_packages_since (self : ElmMirrorApp) (path : string)
  : exn + response :=
  match match_since path with
  | None => inr (error_response 400 "Invalid since parameter")
  | Some group =>
      match int_of_digits group with
      | inl e => inl e
      | inr n =>
          let packages := registry self in
          let total := length packages in
          let result :=
            if (total <=? n)%nat then []
            else map id (take (total - n) packages) in
          inr (ok_response "application/json" (JsonBody (JArr (map JStr result))))
      end
  end.

(** [re.match(r"^/packages/([^/]+)/([^/]+)/([^/]+)/<leaf>$", path)] for a
    literal [leaf]; the three groups are the path segments. *)
Definition match_package_path (leaf path : string)
  : option (string * string * string) :=
  match strip_prefix "/packages/" path with
  | Some r1 =>
      match split_first "/" r1 with
      | Some (author, r2) =>
          match split_first "/" r2 with
          | Some (name, r3) =>
              match split_first "/" r3 with
              | Some (version, r4) =>
                  if nonempty author && nonempty name && nonempty version
                     && String.eqb (chomp r4) leaf
                  then Some (author, name, version)
                  else None
              | None => None
              end
          | None => None
          end
      | None => None
      end
  | None => None
  end.

(** [_serve_endpoint_json] *)
Definition serve_endpoint_json (E : Env) (fs : Files) (self : ElmMirrorApp)
    (path : string) : exn + response :=
  match match_package_path "endpoint.json" path with
  | None => inr (error_response 400 "Invalid endpoint path")
  | Some (author, name, version) =>
      let package_id := author +:+ "/" +:+ name +:+ "@" +:+ version in
      let st := get_package_status (registry self) package_id in
      if bool_decide (st = Some STATUS_PENDING) then
        inr (error_response 503
               ("Package " +:+ package_id +:+ " has not been downloaded yet"))
      else if bool_decide (st = Some STATUS_FAILED) then
        inr (error_response 503
               ("Package " +:+ package_id +:+ " failed to download and is not available"))
      else if bool_decide (st = Some STATUS_IGNORED) then
        inr (error_response 503
               ("Package " +:+ package_id +:+ " is not available on this mirror"))
      else
        let hash_path := package_dir author name version +:+ "/hash.json" in
        match fs !! hash_path with
        | None => inr (error_response 404 "Package hash not found")
        | Some text =>
            match json_loads E text with
            | inl e => inl e
            | inr hash_data =>
                match getitem hash_data "hash" with
                | inl e => inl e
                | inr h =>
                    let endpoint :=
                      JObj [("url", JStr (base_url self +:+ "/packages/" +:+ author
                                          +:+ "/" +:+ name +:+ "/" +:+ version
                                          +:+ "/package.zip"));
                            ("hash", h)] in
                    inr (ok_response "application/json" (JsonBody endpoint))
                end
            end
        end
  end.

(** [_serve_static_file] *)
Definition serve_static_file (fs : Files) (self : ElmMirrorApp) (path : string)
  : exn + response :=
  if contains ".." path then inr (error_response 400 "Invalid path")
  else
    match fs !! lstrip "/" path with
    | None => inr (error_response 404 "File not found")
    | Some data =>
        let gate :=
          if endswith "/package.zip" path then
            match match_package_path "package.zip" path with
            | Some (author, name, version) =>
                let package_id := author +:+ "/" +:+ name +:+ "@" +:+ version in
                let st := get_package_status (registry self) package_id in
                if bool_decide (st = Some STATUS_PENDING) then
                  Some (error_response 503
                          ("Package " +:+ package_id +:+ " has not been downloaded yet"))
                else if bool_decide (st = Some STATUS_FAILED) then
                  Some (error_response 503
                          ("Package " +:+ package_id +:+ " failed to download"))
                else if bool_decide (st = Some STATUS_IGNORED) then
                  Some (error_response 503
                          ("Package " +:+ package_id +:+ " is not available on this mirror"))
                else None
            | None => None
            end
          else None in
        match gate with
        | Some r => inr r
        | None =>
            let ctype :=
              if endswith ".json" path then "application/json"
              else if endswith ".zip" path then "application/zip"
              else "application/octet-stream" in
            inr (ok_response ctype (RawBody data))
        end
    end.

(** [ElmMirrorApp.__call__] *)
Definition call (E : Env) (fs : Files) (self : ElmMirrorApp)
    (method path : string) : exn + response :=
  if negb (String.eqb method "GET") then
    inr (error_response 405 "Method Not Allowed")
  else if String.eqb path "/all-packages" then serve_all_packages fs
  else if startswith "/all-packages/since/" path then
    serve_all_packages_since self path
  else if startswith "/packages/" path && endswith "/endpoint.json" path then
    serve_endpoint_json E fs self path
  else if startswith "/packages/" path then serve_static_file fs self path
  else inr (error_response 404 "Not Found").

(** ** Verify *)

(** The entries of [errors]; each stands for the message the program
    formats from the same data. *)
Inductive verify_error :=
| ZipMissing (package_id : string)
| HashJsonMissing (package_id : string)
| InvalidHashJson (package_id : string) (e : exn)
| HashMismatch (package_id : string) (expected : json) (actual : string)
| ElmJsonMissing (package_id : string).

(** The [try] block that loads the expected hash. *)
Definition load_expected_hash (E : Env) (text : list byte) : exn + json :=
  match json_loads E text with
  | inr hash_data => getitem hash_data "hash"
  | inl e => inl e
  end.

(** One iteration of the loop of [run_verify]: [inr None] when every check
    passes, [inr (Some err)] when one appends to [errors] and continues,
    [inl e] when an exception leaves the loop. *)
Definition verify_package (E : Env) (fs : Files) (package_id : string)
  : exn + option verify_error :=
  match parse_package_id package_id with
  | inl e => inl e
  | inr (author, name, version) =>
      let dir := package_dir author name version in
      match fs !! (dir +:+ "/package.zip") with
      | None => inr (Some (ZipMissing package_id))
      | Some zip =>
          match fs !! (dir +:+ "/hash.json") with
          | None => inr (Some (HashJsonMissing package_id))
          | Some text =>
              match load_expected_hash E text with
              | inl e =>
                  if is_JSONDecodeError_or_KeyError e
                  then inr (Some (InvalidHashJson package_id e))
                  else inl e
              | inr expected_hash =>
                  let actual_hash := compute_sha1 zip in
                  if str_ne actual_hash expected_hash
                  then inr (Some (HashMismatch package_id expected_hash actual_hash))
                  else if file_exists fs (dir +:+ "/elm.json") then inr None
                  else inr (Some (ElmJsonMissing package_id))
              end
          end
      end
  end.

Fixpoint verify_sweep (E : Env) (fs : Files) (success_packages : list entry)
    (errors : list verify_error) : exn + list verify_error :=
  match success_packages with
  | [] => inr errors
  | pkg :: rest =>
      match verify_package E fs (id pkg) with
      | inl e => inl e
      | inr None => verify_sweep E fs rest errors
      | inr (Some err) => verify_sweep E fs rest (errors ++ [err])
      end
  end.

Definition success_packages (registry : Registry) : list entry :=
  filter (fun pkg => status pkg = STATUS_SUCCESS) registry.

(** [run_verify] after the registry is loaded. *)
Definition verify_registry (E : Env) (fs : Files) (registry : Registry)
  : exn + bool :=
  match registry with
  | [] => inr true
  | _ :: _ =>
      match verify_sweep E fs (success_packages registry) [] with
      | inl e => inl e
      | inr [] => inr true
      | inr (_ :: _) => inr false
      end
  end.

(** [run_verify] *)
Definition run_verify (E : Env) (fs : Files) : exn + bool :=
  match load_registry E fs with
  | inl e => inl e
  | inr registry => verify_registry E fs registry
  end.

(** What one package adds to [errors] when its checks run to the end. *)
Definition package_error (E : Env) (fs : Files) (pkg : entry) : option verify_error :=
  match verify_package E fs (id pkg) with
  | inr o => o
  | inl _ => None
  end.

(** ** Sync

    The sync engine runs in a state-and-exception monad.  The state holds
    the files, the registry dict of the run, and a log of two kinds of
    observable events: every URL requested and every "Syncing ..." line
    printed at the head of a loop iteration. *)

Inductive event :=
| Fetch (url : string)
| Syncing (package_id : string).

Record World := {
  w_files : Files;
  w_registry : Registry;
  w_log : list event
}.

Definition M (A : Type) : Type := World -> World * (exn + A).

Definition ret {A} (a : A) : M A := fun w => (w, inr a).
Definition raise {A} (e : exn) : M A := fun w => (w, inl e).
Definition bind {A B} (c : M A) (k : A -> M B) : M B :=
  fun w => match c w with
           | (w', inr a) => k a w'
           | (w', inl e) => (w', inl e)
           end.
(** [try: body except Exception as e: handler] *)
Definition try_except {A} (body : M A) (handler : exn -> M A) : M A :=
  fun w => match body w with
           | (w', inl e) => handler e w'
           | r => r
           end.
Definition lift {A} (r : exn + A) : M A := fun w => (w, r).

Notation "'do' x <- c ; k" := (bind c (fun x => k))
  (at level 10, x pattern, c at level 100, k at level 200).
Notation "c ;; k" := (bind c (fun _ => k))
  (at level 100, k at level 200, right associativity).

Definition get_registry : M Registry := fun w => (w, inr (w_registry w)).
Definition put_registry (r : Registry) : M unit :=
  fun w => ({| w_files := w_files w; w_registry := r; w_log := w_log w |}, inr tt).
Definition put_files (fs : Files) : M unit :=
  fun w => ({| w_files := fs; w_registry := w_registry w; w_log := w_log w |}, inr tt).
Definition get_files : M Files := fun w => (w, inr (w_files w)).
Definition emit (ev : event) : M unit :=
  fun w => ({| w_files := w_files w; w_registry := w_registry w;
               w_log := w_log w ++ [ev] |}, inr tt).

(** [set_package_status(registry, package_id, status)] on the run's dict *)
Definition set_status (package_id st : string) : M unit :=
  do r <- get_registry; put_registry (set_package_status r package_id st).

Definition check_fault (E : Env) (op : fs_op) : M unit :=
  match os_fault E op with
  | Some e => raise e
  | None => ret tt
  end.

(** [path.mkdir(parents=True, exist_ok=True)] *)
Definition mkdir (E : Env) (path : string) : M unit := check_fault E (OpMkdir path).

(** [with open(path, "w"/"wb") as f: f.write(data)].  Opening truncates
    the file; when the write raises, the file holds the part of the data
    that was written before. *)
Definition write_file (E : Env) (path : string) (data : list byte) : M unit :=
  do fs <- get_files;
  match os_fault E (OpWrite path) with
  | None => put_files (<[path := data]> fs)
  | Some e =>
      match written E path with
      | Some k => put_files (<[path := take k data]> fs);; raise e
      | None => raise e
      end
  end.

(** [src.replace(dst)] *)
Definition rename (E : Env) (src dst : string) : M unit :=
  check_fault E (OpRename src dst);;
  do fs <- get_files;
  match fs !! src with
  | Some data => put_files (<[dst := data]> (delete src fs))
  | None => raise (OSError src)
  end.

(** [with open(path, "rb") as f] and reading it to the end *)
Definition read_file (E : Env) (path : string) : M (list byte) :=
  check_fault E (OpRead path);;
  do fs <- get_files;
  match fs !! path with
  | Some data => ret data
  | None => raise (OSError path)
  end.

(** [save_registry] *)
Definition save_registry (E : Env) : M unit :=
  do r <- get_registry;
  write_file E "registry.json.tmp" (json_dumps E (Some 2) (json_of_registry r));;
  rename E "registry.json.tmp" "registry.json".

(** [fetch_url] *)
Definition fetch_url (E : Env) (url : string) : M (list byte) :=
  emit (Fetch url);; lift (urlopen E url).

(** [fetch_json] *)
Definition fetch_json (E : Env) (url : string) : M json :=
  do data <- fetch_url E url; lift (json_loads E data).

Definition as_str (j : json) : exn + string :=
  match j with JStr s => inr s | _ => inl TypeError end.

Fixpoint str_list_of_json (l : list json) : exn + list string :=
  match l with
  | [] => inr []
  | j :: rest =>
      match as_str j, str_list_of_json rest with
      | inr s, inr ss => inr (s :: ss)
      | inl e, _ => inl e
      | _, inl e => inl e
      end
  end.

(** [fetch_all_packages_since], read at its declared type [list[str]] *)
Definition fetch_all_packages_since (E : Env) (since : nat) : M (list string) :=
  do j <- fetch_json E (ELM_PACKAGE_SERVER +:+ "/all-packages/since/" +:+ str_of_nat since);
  match j with
  | JArr l => lift (str_list_of_json l)
  | _ => raise TypeError
  end.

(** [fetch_all_packages] *)
Definition fetch_all_packages (E : Env) : M json :=
  fetch_json E (ELM_PACKAGE_SERVER +:+ "/all-packages").

Definition package_url (author name version leaf : string) : string :=
  ELM_PACKAGE_SERVER +:+ "/packages/" +:+ author +:+ "/" +:+ name +:+ "/"
    +:+ version +:+ "/" +:+ leaf.

(** [fetch_package_endpoint] *)
Definition fetch_package_endpoint (E : Env) (author name version : string) : M json :=
  fetch_json E (package_url author name version "endpoint.json").

(** [fetch_package_elm_json] *)
Definition fetch_package_elm_json (E : Env) (author name version : string) : M json :=
  fetch_json E (package_url author name version "elm.json").

(** [download_package_zip]; [dest_path.with_suffix(".zip.tmp")] of a path
    ending in [.zip] puts [.tmp] after it. *)
Definition download_package_zip (E : Env) (zip_url : json) (dest_path : string)
  : M unit :=
  do url <- lift (as_str zip_url);
  do data <- fetch_url E url;
  let temp_path := dest_path +:+ ".tmp" in
  write_file E temp_path data;;
  rename E temp_path dest_path.

(** The body of the [try] in [sync_package] up to the comparison of the
    two digests; the result tells whether they agree. *)
Definition download_and_check (E : Env) (author name version : string) : M bool :=
  let dir := package_dir author name version in
  mkdir E dir;;
  do endpoint <- fetch_package_endpoint E author name version;
  do zip_url <- lift (getitem endpoint "url");
  do expected_hash <- lift (getitem endpoint "hash");
  write_file E (dir +:+ "/hash.json")
    (json_dumps E None (JObj [("hash", expected_hash)]));;
  do elm_json <- fetch_package_elm_json E author name version;
  write_file E (dir +:+ "/elm.json") (json_dumps E (Some 4) elm_json);;
  let zip_path := dir +:+ "/package.zip" in
  download_package_zip E zip_url zip_path;;
  do zip <- read_file E zip_path;
  let actual_hash := compute_sha1 zip in
  ret (negb (str_ne actual_hash expected_hash)).

(** [sync_package]: the identifier is parsed before the [try]. *)
Definition sync_package (E : Env) (package_id : string) : M bool :=
  match parse_package_id package_id with
  | inl e => raise e
  | inr (author, name, version) =>
      try_except
        (do same <- download_and_check E author name version;
         if same then set_status package_id STATUS_SUCCESS;; ret true
         else set_status package_id STATUS_FAILED;; ret false)
        (fun _ => set_status package_id STATUS_FAILED;; ret false)
  end.

(** The loop that registers the identifiers not yet known. *)
Fixpoint discover (remote_packages : list string) (existing_ids : gset string)
    (registry : Registry) (new_packages : list string)
  : Registry * list string :=
  match remote_packages with
  | [] => (registry, new_packages)
  | pkg_id :: rest =>
      if bool_decide (pkg_id ∈ existing_ids) then
        discover rest existing_ids registry new_packages
      else
        discover rest ({[pkg_id]} ∪ existing_ids)
          (Entry pkg_id STATUS_PENDING :: registry)   (* insert(0, ...) *)
          (new_packages ++ [pkg_id])
  end.

Definition failed_packages (registry : Registry) : list string :=
  map id (filter (fun pkg => status pkg = STATUS_FAILED) registry).

(** The loop that applies the package list to the work-list. *)
Fixpoint filter_loop (pl : gset string) (packages_to_sync filtered : list string)
  : M (list string) :=
  match packages_to_sync with
  | [] => ret filtered
  | pkg_id :: rest =>
      do keep <- lift (should_sync_package pkg_id (Some pl));
      if keep : bool then filter_loop pl rest (filtered ++ [pkg_id])
      else set_status pkg_id STATUS_IGNORED;; filter_loop pl rest filtered
  end.

Definition filter_by_package_list (package_list : option (gset string))
    (packages_to_sync : list string) : M (list string) :=
  match package_list with
  | Some pl => filter_loop pl packages_to_sync []
  | None => ret packages_to_sync
  end.

(** The download loop: [i] is the 1-based position given by [enumerate]. *)
Fixpoint sync_loop (E : Env) (i : nat) (packages_to_sync : list string)
    (counts : nat * nat) : M (nat * nat) :=
  match packages_to_sync with
  | [] => ret counts
  | pkg_id :: rest =>
      emit (Syncing pkg_id);;
      do ok <- sync_package E pkg_id;
      let counts' :=
        if ok : bool then (S (fst counts), snd counts)
        else (fst counts, S (snd counts)) in
      (if (i mod 10 =? 0)%nat then save_registry E else ret tt);;
      sync_loop E (S i) rest counts'
  end.

(** From the filtered work-list to the final save. *)
Definition process_worklist (E : Env) (package_list : option (gset string))
    (packages_to_sync : list string) : M (nat * nat) :=
  do filtered <- filter_by_package_list package_list packages_to_sync;
  do counts <- sync_loop E 1 filtered (0, 0)%nat;
  save_registry E;;
  ret counts.

(** [run_sync]; the result is the pair of counts it prints. *)
Definition run_sync (E : Env) (package_list : option (gset string)) : M (nat * nat) :=
  mkdir E EmptyString;;
  do fs <- get_files;
  do registry <- lift (load_registry E fs);
  put_registry registry;;
  let existing_ids : gset string := list_to_set (ids registry) in
  do remote_packages <- fetch_all_packages_since E 0;
  do all_packages <- fetch_all_packages E;
  write_file E "all-packages" (json_dumps E None all_packages);;
  let '(registry1, new_packages) := discover remote_packages existing_ids registry [] in
  put_registry registry1;;
  let packages_to_sync := new_packages ++ failed_packages registry1 in
  process_worklist E package_list packages_to_sync.

(** ** Observations on a run of the sync engine *)

(** The identifiers of the "Syncing ..." lines, in the order printed. *)
Definition synced_ids (log : list event) : list string :=
  omap (fun ev => match ev with Syncing i => Some i | Fetch _ => None end) log.

Definition with_registry (w : World) (r : Registry) : World :=
  {| w_files := w_files w; w_registry := r; w_log := w_log w |}.

(** A computation that leaves the registry alone and prints no
    "Syncing ..." line. *)
Definition keeps {A} (c : M A) : Prop :=
  forall w, w_registry (fst (c w)) = w_registry w
            /\ synced_ids (w_log (fst (c w))) = synced_ids (w_log w).

(** The registry after the filter loop went over a work-list. *)
Definition mark_ignored (pl : gset string) (packages_to_sync : list string)
    (registry : Registry) : Registry :=
  fold_left
    (fun r package_id =>
       match should_sync_package package_id (Some pl) with
       | inr false => set_package_status r package_id STATUS_IGNORED
       | _ => r
       end)
    packages_to_sync registry.

(** The verdict of the package list on an identifier that parses. *)
Definition allowed (pl : gset string) (package_id : string) : bool :=
  match should_sync_package package_id (Some pl) with
  | inr b => b
  | inl _ => false
  end.

Definition parses (package_id : string) : Prop :=
  exists t, parse_package_id package_id = inr t.

(** Writing [registry.json] never fails. *)
Definition registry_saves (E : Env) : Prop :=
  os_fault E (OpWrite "registry.json.tmp") = None
  /\ os_fault E (OpRename "registry.json.tmp" "registry.json") = None.

(** ** Requests and responses named in the statements *)

(** [/all-packages/since/{n}] *)
Definition since_path (n : nat) : string :=
  "/all-packages/since/" +:+ str_of_nat n.

(** [/packages/{author}/{name}/{version}/{leaf}] *)
Definition package_path (author name version leaf : string) : string :=
  "/packages/" +:+ author +:+ "/" +:+ name +:+ "/" +:+ version +:+ "/" +:+ leaf.

(** [f"{author}/{name}@{version}"] *)
Definition render_id (author name version : string) : string :=
  author +:+ "/" +:+ name +:+ "@" +:+ version.

(** A path segment as the routes' [[^/]+] groups take it. *)
Definition segment (s : string) : bool := nonempty s && negb (has_char "/" s).

(** A 200 response carrying a JSON list of identifiers. *)
Definition listing (l : list string) : exn + response :=
  inr (ok_response "application/json" (JsonBody (JArr (map JStr l)))).

(** ** A small world for the examples

    [json.loads] of this world knows three documents: a digest record, a
    registry file and the empty list; the single byte 255 is not UTF-8 and
    everything else is not JSON.  Nothing can be fetched and no file
    operation fails. *)

Definition dq : string := String "034"%char EmptyString.

(** The SHA-1 digest of the empty archive. *)
Definition example_digest : string := "da39a3ee5e6b4b0d3255bfef95601890afd80709".

Definition example_hash_text : list byte :=
  list_byte_of_string
    ("{" +:+ dq +:+ "hash" +:+ dq +:+ ": " +:+ dq +:+ example_digest +:+ dq +:+ "}").

(** A registry file with the one entry [a/b@1.0.0], successful. *)
Definition example_registry_text : list byte :=
  list_byte_of_string
    ("{" +:+ dq +:+ "packages" +:+ dq +:+ ": [{" +:+ dq +:+ "id" +:+ dq +:+ ": "
     +:+ dq +:+ "a/b@1.0.0" +:+ dq +:+ ", " +:+ dq +:+ "status" +:+ dq +:+ ": "
     +:+ dq +:+ "success" +:+ dq +:+ "}]}").

Definition example_loads (text : list byte) : exn + json :=
  let s := string_of_list_byte text in
  if String.eqb s (string_of_list_byte example_hash_text)
  then inr (JObj [("hash", JStr example_digest)])
  else if String.eqb s (string_of_list_byte example_registry_text)
  then inr (JObj [("packages",
                   JArr [JObj [("id", JStr "a/b@1.0.0");
                               ("status", JStr "success")]])])
  else if String.eqb s "[]" then inr (JArr [])
  else if String.eqb s (String "255"%char EmptyString) then inl UnicodeDecodeError
  else inl JSONDecodeError.

(** [json.dumps] of this world writes the digest record and nothing for
    any other value. *)
Definition example_dumps (indent : option nat) (j : json) : list byte :=
  match j with
  | JObj [(k, JStr h)] =>
      if String.eqb k "hash" && String.eqb h example_digest
      then example_hash_text else []
  | _ => []
  end.

Definition example_env : Env := {|
  json_loads := example_loads;
  json_dumps := example_dumps;
  urlopen := fun url => inl (URLError url);
  os_fault := fun _ => None;
  written := fun _ => None
|}.

(** An upstream for the sync examples.  It lists [c/d@2.0.0] (newest) and
    [a/b@1.0.0]; the endpoint, manifest and (empty) archive of
    [a/b@1.0.0] can be fetched, nothing of [c/d@2.0.0] can. *)

Definition example_listing_text : list byte := list_byte_of_string "listing".
Definition example_index_text : list byte := list_byte_of_string "index".
Definition example_endpoint_text : list byte := list_byte_of_string "endpoint".
Definition example_manifest_text : list byte := list_byte_of_string "manifest".
Definition example_zip_url : string := "https://github.com/a/b/zipball/1.0.0/".

Definition example_upstream_loads (text : list byte) : exn + json :=
  let s := string_of_list_byte text in
  if String.eqb s "listing" then inr (JArr [JStr "c/d@2.0.0"; JStr "a/b@1.0.0"])
  else if String.eqb s "index"
  then inr (JObj [("a/b", JArr [JStr "1.0.0"]); ("c/d", JArr [JStr "2.0.0"])])
  else if String.eqb s "endpoint"
  then inr (JObj [("url", JStr example_zip_url); ("hash", JStr example_digest)])
  else if String.eqb s "manifest" then inr (JObj [("type", JStr "package")])
  else inl JSONDecodeError.

Definition example_urlopen (url : string) : exn + list byte :=
  if String.eqb url "https://package.elm-lang.org/all-packages/since/0"
  then inr example_listing_text
  else if String.eqb url "https://package.elm-lang.org/all-packages"
  then inr example_index_text
  else if String.eqb url "https://package.elm-lang.org/packages/a/b/1.0.0/endpoint.json"
  then inr example_endpoint_text
  else if String.eqb url "https://package.elm-lang.org/packages/a/b/1.0.0/elm.json"
  then inr example_manifest_text
  else if String.eqb url example_zip_url then inr []
  else inl (URLError url).

Definition example_upstream : Env := {|
  json_loads := example_upstream_loads;
  json_dumps := example_dumps;
  urlopen := example_urlopen;
  os_fault := fun _ => None;
  written := fun _ => None
|}.

Definition empty_world : World :=
  {| w_files := ∅; w_registry := []; w_log := [] |}.

(** ** Further notions used in the statements *)

(** The second and third groups of the identifier pattern: [[^@]+] and
    [.+]. *)
Definition name_ok (s : string) : bool := nonempty s && negb (has_char "@" s).
Definition version_ok (s : string) : bool :=
  nonempty s && negb (has_char newline s).

Definition with_files (w : World) (fs : Files) : World :=
  {| w_files := fs; w_registry := w_registry w; w_log := w_log w |}.

Definition with_log (w : World) (log : list event) : World :=
  {| w_files := w_files w; w_registry := w_registry w; w_log := log |}.

(** The URLs requested, in order. *)
Definition fetched_urls (log : list event) : list string :=
  omap (fun ev => match ev with Fetch u => Some u | Syncing _ => None end) log.

(** [n] copies of a character. *)
Fixpoint replicate_char (n : nat) (c : ascii) : string :=
  match n with
  | O => EmptyString
  | S n' => String c (replicate_char n' c)
  end.

(** A world for the examples that cross components: the upstream of
    [example_upstream], with a [json] module that also reads back the two
    documents it writes, the digest record and a registry holding
    [a/b@1.0.0] as successful. *)

Definition example_codec_dumps (indent : option nat) (j : json) : list byte :=
  match j with
  | JObj [(k, JArr [JObj [(k1, JStr i); (k2, JStr s)]])] =>
      if String.eqb k "packages" && String.eqb k1 "id" && String.eqb i "a/b@1.0.0"
         && String.eqb k2 "status" && String.eqb s "success"
      then example_registry_text else []
  | _ => example_dumps indent j
  end.

Definition example_codec_loads (text : list byte) : exn + json :=
  match example_upstream_loads text with
  | inr j => inr j
  | inl _ => example_loads text
  end.

Definition example_mirror : Env := {|
  json_loads := example_codec_loads;
  json_dumps := example_codec_dumps;
  urlopen := example_urlopen;
  os_fault := fun _ => None;
  written := fun _ => None
|}.

(** Everything [run_verify] checks for one package is in place: the
    archive, a [hash.json] whose hash is the SHA-1 of the archive, and the
    manifest. *)
Definition package_intact (E : Env) (fs : Files) (package_id : string) : Prop :=
  exists author name version zip text,
    parse_package_id package_id = inr (author, name, version)
    /\ fs !! (package_dir author name version +:+ "/package.zip") = Some zip
    /\ fs !! (package_dir author name version +:+ "/hash.json") = Some text
    /\ load_expected_hash E text = inr (JStr (compute_sha1 zip))
    /\ is_Some (fs !! (package_dir author name version +:+ "/elm.json")).

(** What every answer of the server looks like: one of five status lines,
    and an error is a JSON object with the one field [error]. *)
Definition well_formed (r : response) : Prop :=
  ((code r = 200 /\ reason r = "OK")
   \/ (code r = 400 /\ reason r = "Bad Request")
   \/ (code r = 404 /\ reason r = "Not Found")
   \/ (code r = 405 /\ reason r = "Method Not Allowed")
   \/ (code r = 503 /\ reason r = "Service Unavailable"))
  /\ (code r <> 200 ->
      content_type r = "application/json"
      /\ exists message, content r = JsonBody (JObj [("error", JStr message)])).

(** A computation that creates, writes or removes no file outside [P]. *)
Definition writes_in {A} (P : string -> Prop) (c : M A) : Prop :=
  forall w p, ~ P p -> w_files (fst (c w)) !! p = w_files w !! p.

(** The four files of a package directory that [sync_package] handles. *)
Definition package_file (author name version p : string) : Prop :=
  let dir := package_dir author name version in
  p = dir +:+ "/hash.json" \/ p = dir +:+ "/elm.json"
  \/ p = dir +:+ "/package.zip" \/ p = dir +:+ "/package.zip.tmp".

(** The files the download loop may handle, and those of a whole run. *)
Definition worklist_file (p : string) : Prop :=
  p = "registry.json" \/ p = "registry.json.tmp"
  \/ startswith "packages/" p = true.

Definition sync_file (p : string) : Prop :=
  p = "all-packages" \/ worklist_file p.

(** ** Paths that name what they say

    A component is [plain] when it names an entry of its directory: it is
    not empty, has no [/], and is neither [.] nor [..].  A relative path
    is [canonical] when all its components are.  For such paths the text
    of the path and the file it resolves to determine each other. *)
Definition plain (s : string) : bool :=
  segment s && negb (String.eqb s ".") && negb (String.eqb s "..").

Fixpoint components (s : string) : list string :=
  match s with
  | EmptyString => [EmptyString]
  | String c r =>
      if Ascii.eqb c "/" then EmptyString :: components r
      else match components r with
           | x :: xs => String c x :: xs
           | [] => [String c EmptyString]
           end
  end.

Definition canonical (p : string) : bool := forallb plain (components p).

(** An identifier whose three groups are plain components; one that does
    not parse is never given a directory. *)
Definition plain_id (package_id : string) : bool :=
  match parse_package_id package_id with
  | inr (author, name, version) => plain author && plain name && plain version
  | inl _ => true
  end.

(** ** What makes a download fail

    Every way in which the body of the [try] in [sync_package] can fail,
    told from the world outside: a request that fails, a document that
    does not decode or lacks a key, a URL that is not text, a
    file-system operation that raises, and an archive whose digest is not
    the announced one. *)
Inductive download_failure (E : Env) (author name version : string) : Prop :=
| mkdir_fails (e : exn) :
    os_fault E (OpMkdir (package_dir author name version)) = Some e ->
    download_failure E author name version
| endpoint_fetch_fails (e : exn) :
    urlopen E (package_url author name version "endpoint.json") = inl e ->
    download_failure E author name version
| endpoint_decode_fails (text : list byte) (e : exn) :
    urlopen E (package_url author name version "endpoint.json") = inr text ->
    json_loads E text = inl e ->
    download_failure E author name version
| endpoint_lacks_key (text : list byte) (endpoint : json) (e : exn) :
    urlopen E (package_url author name version "endpoint.json") = inr text ->
    json_loads E text = inr endpoint ->
    getitem endpoint "url" = inl e \/ getitem endpoint "hash" = inl e ->
    download_failure E author name version
| hash_write_fails (e : exn) :
    os_fault E (OpWrite (package_dir author name version +:+ "/hash.json")) = Some e ->
    download_failure E author name version
| manifest_fetch_fails (e : exn) :
    urlopen E (package_url author name version "elm.json") = inl e ->
    download_failure E author name version
| manifest_decode_fails (text : list byte) (e : exn) :
    urlopen E (package_url author name version "elm.json") = inr text ->
    json_loads E text = inl e ->
    download_failure E author name version
| manifest_write_fails (e : exn) :
    os_fault E (OpWrite (package_dir author name version +:+ "/elm.json")) = Some e ->
    download_failure E author name version
| url_not_text (text : list byte) (endpoint zip_url : json) (e : exn) :
    urlopen E (package_url author name version "endpoint.json") = inr text ->
    json_loads E text = inr endpoint ->
    getitem endpoint "url" = inr zip_url ->
    as_str zip_url = inl e ->
    download_failure E author name version
| archive_fetch_fails (text : list byte) (endpoint : json) (zip_url : string)
    (e : exn) :
    urlopen E (package_url author name version "endpoint.json") = inr text ->
    json_loads E text = inr endpoint ->
    getitem endpoint "url" = inr (JStr zip_url) ->
    urlopen E zip_url = inl e ->
    download_failure E author name version
| archive_write_fails (e : exn) :
    os_fault E (OpWrite (package_dir author name version +:+ "/package.zip.tmp"))
    = Some e ->
    download_failure E author name version
| archive_rename_fails (e : exn) :
    os_fault E (OpRename (package_dir author name version +:+ "/package.zip.tmp")
                         (package_dir author name version +:+ "/package.zip"))
    = Some e ->
    download_failure E author name version
| archive_read_fails (e : exn) :
    os_fault E (OpRead (package_dir author name version +:+ "/package.zip")) = Some e ->
    download_failure E author name version
| digest_mismatch (text : list byte) (endpoint expected_hash : json)
    (zip_url : string) (zip : list byte) :
    urlopen E (package_url author name version "endpoint.json") = inr text ->
    json_loads E text = inr endpoint ->
    getitem endpoint "url" = inr (JStr zip_url) ->
    getitem endpoint "hash" = inr expected_hash ->
    urlopen E zip_url = inr zip ->
    str_ne (compute_sha1 zip) expected_hash = true ->
    download_failure E author name version.

(** ** A number of 4301 digits *)

Fixpoint nines (k : nat) : Decimal.uint :=
  match k with
  | O => Decimal.Nil
  | S k' => Decimal.D9 (nines k')
  end.

(** [10^4301 - 1] *)
Definition beyond_int_limit : nat := Nat.of_uint (nines 4301).

(** An upstream that serves an archive other than the announced one: the
    endpoint of [a/b@1.0.0] announces the digest of the empty archive and
    its URL serves two bytes. *)
Definition example_tampered : Env := {|
  json_loads := example_upstream_loads;
  json_dumps := example_dumps;
  urlopen := fun url =>
    if String.eqb url example_zip_url then inr [x50; x4b] else example_urlopen url;
  os_fault := fun _ => None;
  written := fun _ => None
|}.

(** * Properties *)

(** ** Text *)

(** Let [simpl] compute appends whose left part is known. *)
#[local] Arguments String.append !s1 s2 /.

Section Text.

Lemma ascii_eqb_refl (c : ascii) : Ascii.eqb c c = true.
Proof. apply Ascii.eqb_eq. reflexivity. Qed.

Lemma app_assoc_s (a b c : string) : (a +:+ b) +:+ c = a +:+ (b +:+ c).
Proof. induction a as [|x a IH]; simpl; [reflexivity | now rewrite IH]. Qed.

Lemma strip_prefix_app (p s : string) : strip_prefix p (p +:+ s) = Some s.
Proof.
  induction p as [|a p IH]; simpl; [reflexivity|].
  rewrite ascii_eqb_refl. exact IH.
Qed.

Lemma prefix_app (p s : string) : String.prefix p (p +:+ s) = true.
Proof.
  induction p as [|a p IH]; simpl; [now destruct s|].
  destruct (ascii_dec a a) as [_|n]; [exact IH | now destruct n].
Qed.

Lemma split_first_app (c : ascii) (a r : string) :
  has_char c a = false ->
  split_first c (a +:+ String c r) = Some (a, r).
Proof.
  induction a as [|x a IH]; simpl; intros H.
  - now rewrite ascii_eqb_refl.
  - apply orb_false_iff in H as [Hx Ha].
    rewrite Hx, (IH Ha). reflexivity.
Qed.

Lemma split_first_slash (a r : string) :
  has_char "/" a = false -> split_first "/" (a +:+ "/" +:+ r) = Some (a, r).
Proof. exact (split_first_app "/" a r). Qed.

Lemma endswith_cons (suf : string) (c : ascii) (s : string) :
  endswith suf s = true -> endswith suf (String c s) = true.
Proof. intros H. simpl. rewrite H. apply orb_true_r. Qed.

Lemma endswith_app (suf x s : string) :
  endswith suf s = true -> endswith suf (x +:+ s) = true.
Proof.
  intros H. induction x as [|c x IH]; simpl; [exact H|].
  change (String.eqb suf (String c (x +:+ s)) || endswith suf (x +:+ s) = true).
  rewrite IH. apply orb_true_r.
Qed.

Lemma endswith_refl (s : string) : endswith s s = true.
Proof.
  destruct s as [|c s]; [reflexivity|].
  change (String.eqb (String c s) (String c s) || endswith (String c s) s = true).
  now rewrite String.eqb_refl.
Qed.

Lemma last_char_app (x s : string) :
  nonempty s = true -> last_char (x +:+ s) = last_char s.
Proof.
  intros H. induction x as [|c x IH]; [reflexivity|].
  simpl. rewrite IH. destruct (x +:+ s) eqn:E; [|reflexivity].
  destruct x, s; simpl in *; discriminate.
Qed.

Lemma endswith_last_char (suf s : string) :
  nonempty suf = true -> endswith suf s = true -> last_char s = last_char suf.
Proof.
  intros Hs. induction s as [|c s IH]; simpl.
  - rewrite orb_false_r. intros H. apply String.eqb_eq in H. now subst.
  - intros H. apply orb_true_iff in H as [H|H].
    + apply String.eqb_eq in H. now subst.
    + specialize (IH H). destruct s; [|exact IH].
      simpl in H. rewrite orb_false_r in H. apply String.eqb_eq in H.
      subst. discriminate.
Qed.

Lemma contains_app_r (sub x s : string) :
  contains sub s = true -> contains sub (x +:+ s) = true.
Proof.
  intros H. induction x as [|c x IH]; [exact H|].
  change (String.prefix sub (String c (x +:+ s)) || contains sub (x +:+ s) = true).
  rewrite IH. apply orb_true_r.
Qed.

Lemma chomp_no_newline (s : string) : has_char newline s = false -> chomp s = s.
Proof.
  induction s as [|c s IH]; [reflexivity|]. simpl. intros H.
  apply orb_false_iff in H as [Hc Hs].
  destruct s; [now rewrite Hc|]. now rewrite (IH Hs).
Qed.

Lemma digits_no_newline (d : Decimal.uint) :
  has_char newline (NilEmpty.string_of_uint d) = false.
Proof. induction d; simpl; auto. Qed.

Lemma digits_nonempty (n : nat) : nonempty (str_of_nat n) = true.
Proof.
  unfold str_of_nat.
  destruct (Nat.to_uint n) eqn:E; try reflexivity.
  exfalso. pose proof (f_equal Nat.of_uint E) as E0.
  rewrite DecimalNat.Unsigned.of_to in E0. simpl in E0. subst n.
  discriminate E.
Qed.

Lemma chomp_str_of_nat (n : nat) : chomp (str_of_nat n) = str_of_nat n.
Proof. apply chomp_no_newline, digits_no_newline. Qed.

Lemma is_digits_str (n : nat) : is_digits (str_of_nat n) = true.
Proof.
  unfold is_digits. rewrite digits_nonempty.
  unfold str_of_nat. now rewrite NilEmpty.usu.
Qed.

(** [int(str(n)) = n], for a number within the digit limit *)
Lemma int_of_str (n : nat) :
  String.length (str_of_nat n) <= int_max_str_digits ->
  int_of_digits (str_of_nat n) = inr n.
Proof.
  intros Hlen. unfold int_of_digits.
  replace (int_max_str_digits <? String.length (str_of_nat n))%nat with false
    by (symmetry; apply Nat.ltb_ge; exact Hlen).
  rewrite digits_nonempty.
  unfold str_of_nat. rewrite NilEmpty.usu.
  now rewrite DecimalNat.Unsigned.of_to.
Qed.

End Text.

(** ** Registry *)

Section RegistryFacts.

Lemma get_status_app_None (before after : Registry) (package_id : string) :
  get_package_status before package_id = None ->
  get_package_status (before ++ after) package_id
  = get_package_status after package_id.
Proof.
  induction before as [|pkg before IH]; simpl; [reflexivity|].
  destruct (String.eqb (id pkg) package_id); [discriminate | exact IH].
Qed.

Lemma get_set_same (registry : Registry) (package_id st : string) :
  get_package_status (set_package_status registry package_id st) package_id
  = Some st.
Proof.
  induction registry as [|pkg rest IH]; simpl.
  - now rewrite String.eqb_refl.
  - destruct (String.eqb (id pkg) package_id) eqn:E; simpl; rewrite E; auto.
Qed.

Lemma get_set_other (registry : Registry) (package_id other st : string) :
  other <> package_id ->
  get_package_status (set_package_status registry package_id st) other
  = get_package_status registry other.
Proof.
  intros Hne. induction registry as [|pkg rest IH]; simpl.
  - destruct (String.eqb package_id other) eqn:E; [|reflexivity].
    apply String.eqb_eq in E. congruence.
  - destruct (String.eqb (id pkg) package_id) eqn:E; simpl.
    + apply String.eqb_eq in E.
      destruct (String.eqb (id pkg) other) eqn:E'; [|reflexivity].
      apply String.eqb_eq in E'. congruence.
    + now rewrite IH.
Qed.

Lemma set_status_shape (registry : Registry) (package_id st : string) :
  (exists before pkg after,
      registry = before ++ pkg :: after /\ id pkg = package_id /\
      get_package_status before package_id = None /\
      set_package_status registry package_id st
      = before ++ Entry package_id st :: after)
  \/ (get_package_status registry package_id = None /\
      set_package_status registry package_id st
      = registry ++ [Entry package_id st]).
Proof.
  induction registry as [|pkg rest IH]; simpl.
  - right. split; reflexivity.
  - destruct (String.eqb (id pkg) package_id) eqn:E.
    + left. apply String.eqb_eq in E. exists [], pkg, rest.
      repeat split; simpl; congruence.
    + destruct IH as [(before & p & after & -> & Hp & Hb & Hs)|[Hn Hs]].
      * left. exists (pkg :: before), p, after. simpl. rewrite E, Hs.
        repeat split; auto.
      * right. rewrite Hs. split; auto.
Qed.

Lemma set_set_same (registry : Registry) (package_id st : string) :
  set_package_status (set_package_status registry package_id st) package_id st
  = set_package_status registry package_id st.
Proof.
  induction registry as [|pkg rest IH]; simpl.
  - now rewrite String.eqb_refl.
  - destruct (String.eqb (id pkg) package_id) eqn:E; simpl; rewrite E.
    + reflexivity.
    + now rewrite IH.
Qed.

End RegistryFacts.

(** C6.  Reading a status right after setting it returns the status set,
    whatever the registry held before.  The write overwrites the first
    entry carrying the identifier where it stands, leaving every other
    entry and the order alone, and appends a new last entry when no entry
    carries it; doing the same write twice changes nothing more. *)
Theorem set_status_then_get_status (registry : Registry) (package_id st : string) :
  get_package_status (set_package_status registry package_id st) package_id
  = Some st
  /\ ((exists before pkg after,
          registry = before ++ pkg :: after /\ id pkg = package_id /\
          get_package_status before package_id = None /\
          set_package_status registry package_id st
          = before ++ Entry package_id st :: after)
      \/ (get_package_status registry package_id = None /\
          set_package_status registry package_id st
          = registry ++ [Entry package_id st]))
  /\ set_package_status (set_package_status registry package_id st) package_id st
     = set_package_status registry package_id st.
Proof.
  split; [apply get_set_same|].
  split; [apply set_status_shape | apply set_set_same].
Qed.

(** ** The catalog-delta route *)

Section Since.

Variables (E : Env) (fs : Files) (self : ElmMirrorApp).

Lemma match_since_path (n : nat) :
  match_since (since_path n) = Some (str_of_nat n).
Proof.
  unfold match_since, since_path.
  rewrite strip_prefix_app, chomp_str_of_nat. now rewrite is_digits_str.
Qed.

(** The router sends a [since] path to [_serve_all_packages_since]. *)
Lemma call_since_route (n : nat) :
  call E fs self "GET" (since_path n)
  = serve_all_packages_since self (since_path n).
Proof.
  unfold call.
  replace (String.eqb "GET" "GET") with true by reflexivity.
  replace (String.eqb (since_path n) "/all-packages") with false by reflexivity.
  unfold startswith at 1. unfold since_path at 1. rewrite prefix_app.
  reflexivity.
Qed.

Lemma call_since (n : nat) :
  String.length (str_of_nat n) <= int_max_str_digits ->
  call E fs self "GET" (since_path n)
  = listing (if (length (registry self) <=? n)%nat then []
             else ids (take (length (registry self) - n) (registry self))).
Proof.
  intros Hlen. rewrite call_since_route. unfold serve_all_packages_since.
  rewrite match_since_path, int_of_str by exact Hlen. reflexivity.
Qed.

(** Beyond the digit limit [int] raises, and nothing catches it. *)
Lemma call_since_beyond_limit (n : nat) :
  int_max_str_digits < String.length (str_of_nat n) ->
  exists msg, call E fs self "GET" (since_path n) = inl (ValueError msg).
Proof.
  intros Hlen. rewrite call_since_route. unfold serve_all_packages_since.
  rewrite match_since_path. unfold int_of_digits.
  replace (int_max_str_digits <? String.length (str_of_nat n))%nat with true
    by (symmetry; apply Nat.ltb_lt; exact Hlen).
  eauto.
Qed.

End Since.

(** C4 as stated fails: it speaks of every natural number, and for the
    number written with 4301 nines [int] raises [ValueError], which leaves
    the application: the request gets no JSON list. *)
Lemma since_beyond_int_limit_raises :
  call example_env ∅ (App "http://mirror" []) "GET" (since_path beyond_int_limit)
  = inl (ValueError
           ("Exceeds the limit (4300 digits) for integer string conversion: "
            +:+ "value has 4301 digits; use sys.set_int_max_str_digits() "
            +:+ "to increase the limit"))
  /\ call example_env ∅ (App "http://mirror" []) "GET" (since_path beyond_int_limit)
     <> listing [].
Proof.
  assert (Hpath : since_path beyond_int_limit
                  = "/all-packages/since/" +:+ NilEmpty.string_of_uint (nines 4301)).
  { unfold since_path, str_of_nat, beyond_int_limit.
    rewrite DecimalNat.Unsigned.to_of. reflexivity. }
  rewrite Hpath.
  assert (Hcall : call example_env ∅ (App "http://mirror" []) "GET"
                    ("/all-packages/since/" +:+ NilEmpty.string_of_uint (nines 4301))
                  = inl (ValueError
                           ("Exceeds the limit (4300 digits) for integer string conversion: "
                            +:+ "value has 4301 digits; use sys.set_int_max_str_digits() "
                            +:+ "to increase the limit")))
    by (vm_compute; reflexivity).
  rewrite Hcall. split; [reflexivity | discriminate].
Qed.

(** C4, amended.  For a number [n] that [int] converts (at most 4300
    digits), [GET /all-packages/since/{n}] answers 200 with a JSON list:
    for [n = 0] every identifier in the current registry order, for [n]
    at least the number of entries the empty list, and for [n = total - k]
    with [0 < k <= total] the identifiers of the first [k] entries. *)
Theorem since_returns_first_entries (E : Env) (fs : Files)
    (self : ElmMirrorApp) (n k : nat) :
  let total := length (registry self) in
  let get m := call E fs self "GET" (since_path m) in
  let converts m := String.length (str_of_nat m) <= int_max_str_digits in
  get 0 = listing (ids (registry self))
  /\ (total <= n -> converts n -> get n = listing [])
  /\ (0 < k <= total -> converts (total - k) ->
      get (total - k) = listing (ids (take k (registry self)))).
Proof.
  cbv zeta. repeat split.
  - rewrite call_since by (apply Nat.leb_le; vm_compute; reflexivity).
    destruct (registry self) as [|pkg rest] eqn:R.
    + reflexivity.
    + replace (length (pkg :: rest) <=? 0)%nat with false by reflexivity.
      rewrite Nat.sub_0_r, firstn_all. reflexivity.
  - intros Hn Hc. rewrite call_since by exact Hc.
    apply Nat.leb_le in Hn. now rewrite Hn.
  - intros [Hk Hle] Hc. rewrite call_since by exact Hc.
    replace (length (registry self) <=? length (registry self) - k)%nat with false
      by (symmetry; apply Nat.leb_gt; lia).
    replace (length (registry self) - (length (registry self) - k)) with k by lia.
    reflexivity.
Qed.

(** The three cases of C4 on a registry of three entries. *)
Lemma since_returns_first_entries_witness :
  let self := App "http://mirror" [Entry "c/c@1.0.0" "success";
                                   Entry "b/b@1.0.0" "pending";
                                   Entry "a/a@1.0.0" "success"] in
  call example_env ∅ self "GET" (since_path 0)
  = listing ["c/c@1.0.0"; "b/b@1.0.0"; "a/a@1.0.0"]
  /\ call example_env ∅ self "GET" (since_path 5) = listing []
  /\ call example_env ∅ self "GET" (since_path 1)
     = listing ["c/c@1.0.0"; "b/b@1.0.0"].
Proof.
  intros self.
  destruct (since_returns_first_entries example_env ∅ self 5 2) as (H0 & Hn & Hk).
  split; [exact H0|]. split.
  - apply Hn; [simpl; lia | apply Nat.leb_le; vm_compute; reflexivity].
  - apply Hk; [simpl; lia | apply Nat.leb_le; vm_compute; reflexivity].
Defined.

(** ** Discovery of new packages *)

Section Discover.

(** Every identifier the loop finds new is put in front of the registry as
    a pending entry, each one in front of those found before it: the new
    entries stand in the reverse of the order of the upstream listing. *)
Lemma discover_reverses (remote : list string) :
  forall (existing : gset string) (registry : Registry) (acc : list string),
  exists found,
    discover remote existing registry acc
    = (rev (map (fun i => Entry i STATUS_PENDING) found) ++ registry,
       acc ++ found)
    /\ (forall i, i ∈ found <-> i ∈ remote /\ i ∉ existing).
Proof.
  induction remote as [|pkg_id rest IH]; intros existing registry acc; simpl.
  - exists []. rewrite app_nil_r. split; [reflexivity|]. set_solver.
  - case_bool_decide as Hin.
    + destruct (IH existing registry acc) as (found & -> & Hf).
      exists found. split; [reflexivity|]. intros i. rewrite Hf. set_solver.
    + destruct (IH ({[pkg_id]} ∪ existing)
                   (Entry pkg_id STATUS_PENDING :: registry)
                   (acc ++ [pkg_id])) as (found & -> & Hf).
      exists (pkg_id :: found). split.
      * simpl. rewrite <- !app_assoc. reflexivity.
      * intros i. rewrite elem_of_cons, Hf. clear Hf.
        destruct (decide (i = pkg_id)); set_solver.
Qed.

End Discover.

(** C1, at the input where the code departs from it.  Upstream lists two
    unknown versions newest first; both are inserted as pending at the
    front, yet the first entry of the registry is then the older one. *)
Theorem discover_puts_oldest_first :
  discover ["a/b@2.0.0"; "a/b@1.0.0"] ∅ [] []
  = ([Entry "a/b@1.0.0" STATUS_PENDING; Entry "a/b@2.0.0" STATUS_PENDING],
     ["a/b@2.0.0"; "a/b@1.0.0"]).
Proof. vm_compute. reflexivity. Qed.

(** ** Streaming digest *)

Module SHA1Facts.
Import SHA1.

Lemma absorb_lt (h : regs) (buf : list byte) :
  length buf < 64 -> absorb h buf = (h, buf).
Proof.
  intros H. simp absorb. destruct (le_lt_dec 64 (length buf)); simpl; [lia | reflexivity].
Qed.

Lemma absorb_ge (h : regs) (buf : list byte) :
  64 <= length buf ->
  absorb h buf = absorb (compress h (take 64 buf)) (drop 64 buf).
Proof.
  intros H. rewrite absorb_equation_1 at 1.
  destruct (le_lt_dec 64 (length buf)); simpl; [reflexivity | lia].
Qed.

(** Blocks completed by the first part of a buffer can be consumed before
    the rest arrives. *)
Lemma absorb_app (x : list byte) :
  forall (h : regs) (y : list byte),
    absorb h (x ++ y) = let '(h1, r) := absorb h x in absorb h1 (r ++ y).
Proof.
  induction x as [x IH] using (induction_ltof1 _ (@length byte)).
  unfold ltof in IH. intros h y.
  destruct (le_lt_dec 64 (length x)) as [Hge|Hlt].
  - rewrite (absorb_ge h (x ++ y)) by (rewrite length_app; lia).
    rewrite (absorb_ge h x) by exact Hge.
    rewrite take_app_le, drop_app_le by lia.
    apply IH. rewrite length_drop. lia.
  - now rewrite (absorb_lt h x).
Qed.

(** The documented law of [update]: feeding two pieces one after the other
    is feeding their concatenation. *)
Lemma update_app (m : t) (a b : list byte) :
  update (update m a) b = update m (a ++ b).
Proof.
  unfold update.
  rewrite (app_assoc (pending m) a b), (absorb_app (pending m ++ a) (h m) b).
  destruct (absorb (h m) (pending m ++ a)) as [h1 r1]. simpl.
  destruct (absorb h1 (r1 ++ b)) as [h2 r2].
  rewrite length_app, Nat.add_assoc. reflexivity.
Qed.

Lemma update_new_nil : update new [] = new.
Proof. reflexivity. Qed.

End SHA1Facts.

Lemma sha1_feed_update (chunk_size : nat) (m : SHA1.t) (unread : list byte) :
  0 < chunk_size ->
  sha1_feed chunk_size m unread
  = match unread with [] => m | _ :: _ => SHA1.update m unread end.
Proof.
  intros Hpos. revert m.
  induction unread as [unread IH] using (induction_ltof1 _ (@length byte)).
  unfold ltof in IH. intros m.
  rewrite sha1_feed_equation_1.
  destruct unread as [|b rest].
  - destruct chunk_size; reflexivity.
  - destruct chunk_size as [|c]; [lia|].
    cbn [take inspect sha1_feed_clause_1 proj1_sig].
    change (sha1_feed (S c) (SHA1.update m (b :: take c rest)) (drop c rest)
            = SHA1.update m (b :: rest)).
    rewrite IH by (rewrite length_drop; simpl; lia).
    assert (b :: rest = (b :: take c rest) ++ drop c rest) as Hsplit
      by (simpl; now rewrite take_drop).
    rewrite Hsplit.
    destruct (drop c rest) eqn:D.
    + now rewrite app_nil_r.
    + rewrite SHA1Facts.update_app. reflexivity.
Qed.

(** C7.  Whatever positive number of bytes each read asks for, the digest
    the read loop produces is the digest of the whole contents fed in one
    piece. *)
Theorem digest_independent_of_chunk_size (contents : list byte) (chunk_size : nat) :
  0 < chunk_size ->
  compute_sha1_chunked chunk_size contents
  = SHA1.hexdigest (SHA1.update SHA1.new contents).
Proof.
  intros Hpos. unfold compute_sha1_chunked.
  rewrite sha1_feed_update by exact Hpos.
  destruct contents; reflexivity.
Qed.

(** C7 at a read size of three bytes, and the program's own 8192. *)
Lemma digest_independent_of_chunk_size_witness :
  0 < 3
  /\ compute_sha1_chunked 3 (list_byte_of_string "elm-mirror")
     = SHA1.hexdigest (SHA1.update SHA1.new (list_byte_of_string "elm-mirror")).
Proof.
  split; [lia|].
  apply (digest_independent_of_chunk_size (list_byte_of_string "elm-mirror") 3).
  lia.
Defined.

(** ** Package routes *)

Section Routes.

Variables (E : Env) (fs : Files) (self : ElmMirrorApp).
Variables (author name version : string).
Hypotheses (Hauthor : segment author = true) (Hname : segment name = true)
           (Hversion : segment version = true).

Lemma segment_inv (s : string) :
  segment s = true -> nonempty s = true /\ has_char "/" s = false.
Proof.
  unfold segment. intros H. apply andb_true_iff in H as [H1 H2].
  split; [exact H1|]. now apply negb_true_iff.
Qed.

Lemma match_package_path_ok (leaf : string) :
  chomp leaf = leaf ->
  match_package_path leaf (package_path author name version leaf)
  = Some (author, name, version).
Proof.
  intros Hleaf.
  destruct (segment_inv _ Hauthor) as [Ha1 Ha2].
  destruct (segment_inv _ Hname) as [Hn1 Hn2].
  destruct (segment_inv _ Hversion) as [Hv1 Hv2].
  unfold match_package_path, package_path.
  rewrite strip_prefix_app.
  rewrite (split_first_slash author) by exact Ha2. cbv iota beta.
  rewrite (split_first_slash name) by exact Hn2. cbv iota beta.
  rewrite (split_first_slash version) by exact Hv2. cbv iota beta.
  now rewrite Ha1, Hn1, Hv1, Hleaf, String.eqb_refl.
Qed.

Lemma package_path_leaf (leaf : string) :
  package_path author name version leaf
  = ("/packages/" +:+ author +:+ "/" +:+ name +:+ "/" +:+ version) +:+ "/" +:+ leaf.
Proof. unfold package_path. now rewrite !app_assoc_s. Qed.

Lemma package_path_endswith (leaf : string) :
  endswith ("/" +:+ leaf) (package_path author name version leaf) = true.
Proof. rewrite package_path_leaf. apply endswith_app, endswith_refl. Qed.

Lemma package_path_last_char (leaf : string) :
  last_char (package_path author name version leaf) = last_char ("/" +:+ leaf).
Proof. rewrite package_path_leaf. now apply last_char_app. Qed.

Lemma lstrip_package_path (leaf : string) :
  lstrip "/" (package_path author name version leaf)
  = package_dir author name version +:+ "/" +:+ leaf.
Proof.
  unfold package_path, package_dir. rewrite !app_assoc_s. reflexivity.
Qed.

(** The router on a [GET] below [/packages/]. *)
Lemma call_packages (tail : string) :
  call E fs self "GET" ("/packages/" +:+ tail)
  = if endswith "/endpoint.json" ("/packages/" +:+ tail)
    then serve_endpoint_json E fs self ("/packages/" +:+ tail)
    else serve_static_file fs self ("/packages/" +:+ tail).
Proof.
  unfold call.
  replace (String.eqb "GET" "GET") with true by reflexivity.
  replace (String.eqb ("/packages/" +:+ tail) "/all-packages") with false
    by reflexivity.
  replace (startswith "/all-packages/since/" ("/packages/" +:+ tail)) with false
    by reflexivity.
  unfold startswith. rewrite prefix_app. cbn [negb andb]. reflexivity.
Qed.

(** The router sends an [endpoint.json] path to [_serve_endpoint_json]. *)
Lemma call_endpoint_json :
  call E fs self "GET" (package_path author name version "endpoint.json")
  = serve_endpoint_json E fs self (package_path author name version "endpoint.json").
Proof.
  pose proof (package_path_endswith "endpoint.json") as Hend.
  change ("/" +:+ "endpoint.json") with "/endpoint.json" in Hend.
  unfold package_path in *. rewrite call_packages, Hend. reflexivity.
Qed.

(** ... and a [package.zip] path to [_serve_static_file]. *)
Lemma call_package_zip :
  call E fs self "GET" (package_path author name version "package.zip")
  = serve_static_file fs self (package_path author name version "package.zip").
Proof.
  destruct (endswith "/endpoint.json"
              (package_path author name version "package.zip")) eqn:Hend.
  - apply endswith_last_char in Hend; [|reflexivity].
    rewrite package_path_last_char in Hend. discriminate.
  - unfold package_path in *. rewrite call_packages, Hend. reflexivity.
Qed.

(** [_serve_endpoint_json] on a well-formed path, by registry status. *)
Lemma serve_endpoint_json_cases :
  let package_id := render_id author name version in
  let st := get_package_status (registry self) package_id in
  serve_endpoint_json E fs self (package_path author name version "endpoint.json")
  = if bool_decide (st = Some STATUS_PENDING) then
      inr (error_response 503
             ("Package " +:+ package_id +:+ " has not been downloaded yet"))
    else if bool_decide (st = Some STATUS_FAILED) then
      inr (error_response 503
             ("Package " +:+ package_id +:+ " failed to download and is not available"))
    else if bool_decide (st = Some STATUS_IGNORED) then
      inr (error_response 503
             ("Package " +:+ package_id +:+ " is not available on this mirror"))
    else
      match fs !! (package_dir author name version +:+ "/hash.json") with
      | None => inr (error_response 404 "Package hash not found")
      | Some text =>
          match load_expected_hash E text with
          | inl e => inl e
          | inr h =>
              inr (ok_response "application/json"
                     (JsonBody (JObj [("url", JStr (base_url self +:+
                                   package_path author name version "package.zip"));
                                      ("hash", h)])))
          end
      end.
Proof.
  cbv zeta. unfold serve_endpoint_json.
  rewrite match_package_path_ok by reflexivity.
  fold (render_id author name version).
  repeat (case_bool_decide; [reflexivity|]).
  destruct (fs !! _) as [text|]; [|reflexivity].
  unfold load_expected_hash.
  destruct (json_loads E text) as [e|hash_data]; [reflexivity|].
  destruct (getitem hash_data "hash"); reflexivity.
Qed.

(** [_serve_static_file] on a well-formed [package.zip] path. *)
Lemma serve_package_zip_cases :
  let package_id := render_id author name version in
  let path := package_path author name version "package.zip" in
  let st := get_package_status (registry self) package_id in
  serve_static_file fs self path
  = if contains ".." path then inr (error_response 400 "Invalid path")
    else
      match fs !! (package_dir author name version +:+ "/package.zip") with
      | None => inr (error_response 404 "File not found")
      | Some data =>
          if bool_decide (st = Some STATUS_PENDING) then
            inr (error_response 503
                   ("Package " +:+ package_id +:+ " has not been downloaded yet"))
          else if bool_decide (st = Some STATUS_FAILED) then
            inr (error_response 503
                   ("Package " +:+ package_id +:+ " failed to download"))
          else if bool_decide (st = Some STATUS_IGNORED) then
            inr (error_response 503
                   ("Package " +:+ package_id +:+ " is not available on this mirror"))
          else inr (ok_response "application/zip" (RawBody data))
      end.
Proof.
  cbv zeta. unfold serve_static_file.
  destruct (contains ".." _); [reflexivity|].
  rewrite lstrip_package_path.
  destruct (fs !! _) as [data|]; [|reflexivity].
  pose proof (package_path_endswith "package.zip") as Hend.
  change ("/" +:+ "package.zip") with "/package.zip" in Hend.
  rewrite Hend, match_package_path_ok by reflexivity.
  fold (render_id author name version).
  repeat (case_bool_decide; [reflexivity|]).
  destruct (endswith ".json" _) eqn:Hjson.
  - apply endswith_last_char in Hjson; [|reflexivity].
    rewrite package_path_last_char in Hjson. discriminate.
  - replace (endswith ".zip" (package_path author name version "package.zip"))
      with true; [reflexivity|].
    symmetry. rewrite package_path_leaf. apply endswith_app. reflexivity.
Qed.

End Routes.

(** C3 as stated fails: a successful identifier whose [hash.json] is not
    on disk is answered 404, not 200. *)
Lemma endpoint_json_success_without_hash_json :
  let self := App "https://mirror.example" [Entry "a/b@1.0.0" STATUS_SUCCESS] in
  get_package_status (registry self) "a/b@1.0.0" = Some STATUS_SUCCESS
  /\ call example_env ∅ self "GET" "/packages/a/b/1.0.0/endpoint.json"
     = inr (error_response 404 "Package hash not found")
  /\ code (error_response 404 "Package hash not found") <> 200.
Proof. repeat split. discriminate. Qed.

(** C3, amended.  [GET /packages/{author}/{name}/{version}/endpoint.json]:
    a pending, failed or ignored identifier gets 503 with the message of
    its status (the pending one containing "has not been downloaded yet");
    a successful one gets 404 when [hash.json] is not on disk, and 200
    with [{url, hash}] when [hash.json] holds a digest, the URL being the
    mirror's base URL followed by the path of the archive, the hash being
    the stored digest. *)
Theorem endpoint_json_by_status (E : Env) (fs : Files) (self : ElmMirrorApp)
    (author name version : string) :
  segment author = true -> segment name = true -> segment version = true ->
  let package_id := render_id author name version in
  let st := get_package_status (registry self) package_id in
  let resp := call E fs self "GET" (package_path author name version "endpoint.json") in
  (st = Some STATUS_PENDING ->
     resp = inr (error_response 503
                   ("Package " +:+ package_id +:+ " has not been downloaded yet"))
     /\ contains "has not been downloaded yet"
          ("Package " +:+ package_id +:+ " has not been downloaded yet") = true)
  /\ (st = Some STATUS_FAILED ->
        resp = inr (error_response 503
                      ("Package " +:+ package_id
                       +:+ " failed to download and is not available")))
  /\ (st = Some STATUS_IGNORED ->
        resp = inr (error_response 503
                      ("Package " +:+ package_id
                       +:+ " is not available on this mirror")))
  /\ (st = Some STATUS_SUCCESS ->
        (fs !! (package_dir author name version +:+ "/hash.json") = None ->
           resp = inr (error_response 404 "Package hash not found"))
        /\ forall text hash_data digest,
             fs !! (package_dir author name version +:+ "/hash.json") = Some text ->
             json_loads E text = inr hash_data ->
             getitem hash_data "hash" = inr digest ->
             resp = inr (ok_response "application/json"
                           (JsonBody (JObj [("url", JStr (base_url self +:+
                                         package_path author name version "package.zip"));
                                            ("hash", digest)])))).
Proof.
  intros Ha Hn Hv. cbv zeta.
  rewrite call_endpoint_json by assumption.
  pose proof (serve_endpoint_json_cases E fs self author name version Ha Hn Hv) as H.
  cbv zeta in H. rewrite H. clear H.
  split; [|split; [|split]].
  - intros ->. split; [reflexivity|].
    apply contains_app_r, contains_app_r. reflexivity.
  - intros ->. reflexivity.
  - intros ->. reflexivity.
  - intros ->. split.
    + intros ->. reflexivity.
    + intros text hash_data digest Hf Hl Hg.
      rewrite Hf. unfold load_expected_hash. rewrite Hl, Hg. reflexivity.
Qed.

(** Amended C3 on a mirror that has [a/b@1.0.0] and is still waiting for
    [c/d@2.0.0]. *)
Lemma endpoint_json_by_status_witness :
  let self := App "https://mirror.example" [Entry "c/d@2.0.0" STATUS_PENDING;
                                            Entry "a/b@1.0.0" STATUS_SUCCESS] in
  let fs : Files := {[ "packages/a/b/1.0.0/hash.json" := example_hash_text ]} in
  call example_env fs self "GET" "/packages/c/d/2.0.0/endpoint.json"
  = inr (error_response 503 "Package c/d@2.0.0 has not been downloaded yet")
  /\ call example_env fs self "GET" "/packages/a/b/1.0.0/endpoint.json"
     = inr (ok_response "application/json"
              (JsonBody (JObj [("url", JStr "https://mirror.example/packages/a/b/1.0.0/package.zip");
                               ("hash", JStr example_digest)]))).
Proof.
  intros self fs. split.
  - destruct (endpoint_json_by_status example_env fs self "c" "d" "2.0.0"
                eq_refl eq_refl eq_refl) as (Hp & _).
    apply Hp. reflexivity.
  - destruct (endpoint_json_by_status example_env fs self "a" "b" "1.0.0"
                eq_refl eq_refl eq_refl) as (_ & _ & _ & Hs).
    apply (proj2 (Hs eq_refl) example_hash_text
             (JObj [("hash", JStr example_digest)]) (JStr example_digest));
      reflexivity.
Defined.

(** C2 as stated fails: the archive of a pending package that has no file
    on disk is answered 404, not 503, because [_serve_static_file] looks
    for the file before it looks at the registry. *)
Lemma package_zip_pending_without_file :
  let self := App "https://mirror.example" [Entry "a/b@1.0.0" STATUS_PENDING] in
  get_package_status (registry self) "a/b@1.0.0" = Some STATUS_PENDING
  /\ call example_env ∅ self "GET" "/packages/a/b/1.0.0/package.zip"
     = inr (error_response 404 "File not found")
  /\ code (error_response 404 "File not found") <> 503.
Proof. repeat split. discriminate. Qed.

(** C2, amended.  A [GET] for the archive of a pending, failed or ignored
    identifier never gets the archive: the answer is a JSON error body,
    with status 400 when the path contains "..", else 404 when the file is
    not on disk, else 503 with the message of the status (for pending and
    ignored the same text as on the [endpoint.json] route). *)
Theorem package_zip_never_served (E : Env) (fs : Files) (self : ElmMirrorApp)
    (author name version : string) :
  segment author = true -> segment name = true -> segment version = true ->
  let package_id := render_id author name version in
  let path := package_path author name version "package.zip" in
  let st := get_package_status (registry self) package_id in
  st = Some STATUS_PENDING \/ st = Some STATUS_FAILED \/ st = Some STATUS_IGNORED ->
  exists status_code message,
    call E fs self "GET" path = inr (error_response status_code message)
    /\ status_code
       = (if contains ".." path then 400
          else if file_exists fs (package_dir author name version +:+ "/package.zip")
               then 503 else 404)
    /\ (status_code = 503 ->
        message
        = "Package " +:+ package_id +:+
          (if bool_decide (st = Some STATUS_PENDING) then " has not been downloaded yet"
           else if bool_decide (st = Some STATUS_FAILED) then " failed to download"
           else " is not available on this mirror")).
Proof.
  intros Ha Hn Hv. cbv zeta. intros Hst.
  rewrite call_package_zip by assumption.
  pose proof (serve_package_zip_cases fs self author name version Ha Hn Hv) as H.
  cbv zeta in H. rewrite H. clear H.
  destruct (contains ".." _).
  { eexists _, _. split; [reflexivity|]. split; [reflexivity | discriminate]. }
  unfold file_exists.
  destruct (fs !! _) as [data|] eqn:Hf.
  - rewrite (bool_decide_eq_true_2 (is_Some (Some data))) by (eexists; reflexivity).
    destruct Hst as [Hst|[Hst|Hst]]; rewrite Hst;
      eexists _, _; (split; [reflexivity|]); split; reflexivity.
  - rewrite (bool_decide_eq_false_2 (is_Some (@None (list byte))))
      by (intros [? ?]; discriminate).
    eexists _, _. split; [reflexivity|]. split; [reflexivity | discriminate].
Qed.

(** Amended C2 where the downloaded archive failed its digest check and is
    still on disk. *)
Lemma package_zip_never_served_witness :
  let self := App "https://mirror.example" [Entry "a/b@1.0.0" STATUS_FAILED] in
  let fs : Files := {[ "packages/a/b/1.0.0/package.zip" := [x50; x4b] ]} in
  exists status_code message,
    call example_env fs self "GET" (package_path "a" "b" "1.0.0" "package.zip")
    = inr (error_response status_code message)
    /\ status_code = 503
    /\ (status_code = 503 -> message = "Package a/b@1.0.0 failed to download").
Proof.
  intros self fs.
  exact (package_zip_never_served example_env fs self "a" "b" "1.0.0"
           eq_refl eq_refl eq_refl (or_intror (or_introl eq_refl))).
Defined.

(** C10.  An identifier without a registry entry is not gated: its
    [endpoint.json] is 404 when [hash.json] is missing and 200 when it holds
    a digest, its archive (on a path free of "..") is 404 when missing and
    200 with the bytes on disk otherwise; and on both routes a 503 answer
    means that the status is pending, failed or ignored. *)
Theorem unknown_package_not_gated (E : Env) (fs : Files) (self : ElmMirrorApp)
    (author name version : string) :
  segment author = true -> segment name = true -> segment version = true ->
  let package_id := render_id author name version in
  let st := get_package_status (registry self) package_id in
  let dir := package_dir author name version in
  let endpoint := call E fs self "GET" (package_path author name version "endpoint.json") in
  let archive := call E fs self "GET" (package_path author name version "package.zip") in
  (st = None ->
     (fs !! (dir +:+ "/hash.json") = None ->
        endpoint = inr (error_response 404 "Package hash not found"))
     /\ (forall text hash_data digest,
           fs !! (dir +:+ "/hash.json") = Some text ->
           json_loads E text = inr hash_data ->
           getitem hash_data "hash" = inr digest ->
           endpoint = inr (ok_response "application/json"
                             (JsonBody (JObj [("url", JStr (base_url self +:+
                                           package_path author name version "package.zip"));
                                              ("hash", digest)]))))
     /\ (contains ".." (package_path author name version "package.zip") = false ->
           (fs !! (dir +:+ "/package.zip") = None ->
              archive = inr (error_response 404 "File not found"))
           /\ (forall data,
                 fs !! (dir +:+ "/package.zip") = Some data ->
                 archive = inr (ok_response "application/zip" (RawBody data)))))
  /\ (forall r, (endpoint = inr r \/ archive = inr r) -> code r = 503 ->
        st = Some STATUS_PENDING \/ st = Some STATUS_FAILED \/ st = Some STATUS_IGNORED).
Proof.
  intros Ha Hn Hv. cbv zeta.
  rewrite call_endpoint_json, call_package_zip by assumption.
  pose proof (serve_endpoint_json_cases E fs self author name version Ha Hn Hv) as He.
  pose proof (serve_package_zip_cases fs self author name version Ha Hn Hv) as Hz.
  cbv zeta in He, Hz. rewrite He, Hz. clear He Hz.
  split.
  - intros ->.
    rewrite !bool_decide_eq_false_2 by discriminate.
    split; [|split].
    + intros ->. reflexivity.
    + intros text hash_data digest -> Hl Hg.
      unfold load_expected_hash. rewrite Hl, Hg. reflexivity.
    + intros ->. split.
      * intros ->. reflexivity.
      * intros data ->. reflexivity.
  - intros r Hr Hcode.
    destruct (get_package_status (registry self) (render_id author name version))
      as [s|] eqn:Hs.
    2:{ exfalso. rewrite !bool_decide_eq_false_2 in Hr by discriminate.
        destruct Hr as [Hr|Hr].
        - destruct (fs !! _); [destruct (load_expected_hash E _)|];
            inversion Hr; subst r; discriminate.
        - destruct (contains ".." _); [|destruct (fs !! _)];
            inversion Hr; subst r; discriminate. }
    destruct (decide (Some s = Some STATUS_PENDING)) as [|N1]; [auto|].
    destruct (decide (Some s = Some STATUS_FAILED)) as [|N2]; [auto|].
    destruct (decide (Some s = Some STATUS_IGNORED)) as [|N3]; [auto|].
    exfalso. rewrite !bool_decide_eq_false_2 in Hr by assumption.
    destruct Hr as [Hr|Hr].
    + destruct (fs !! _); [destruct (load_expected_hash E _)|];
        inversion Hr; subst r; discriminate.
    + destruct (contains ".." _); [|destruct (fs !! _)];
        inversion Hr; subst r; discriminate.
Qed.

(** C10 on a mirror whose registry is empty while the files of [a/b@1.0.0]
    lie on disk. *)
Lemma unknown_package_not_gated_witness :
  let self := App "https://mirror.example" [] in
  let fs : Files := {[ "packages/a/b/1.0.0/hash.json" := example_hash_text;
                       "packages/a/b/1.0.0/package.zip" := [x50; x4b] ]} in
  call example_env fs self "GET" "/packages/a/b/1.0.0/endpoint.json"
  = inr (ok_response "application/json"
           (JsonBody (JObj [("url", JStr "https://mirror.example/packages/a/b/1.0.0/package.zip");
                            ("hash", JStr example_digest)])))
  /\ call example_env fs self "GET" "/packages/a/b/1.0.0/package.zip"
     = inr (ok_response "application/zip" (RawBody [x50; x4b]))
  /\ call example_env fs self "GET" "/packages/c/d/2.0.0/package.zip"
     = inr (error_response 404 "File not found").
Proof.
  intros self fs.
  destruct (unknown_package_not_gated example_env fs self "a" "b" "1.0.0"
              eq_refl eq_refl eq_refl) as (Hab & _).
  destruct (Hab eq_refl) as (_ & He & Hz).
  destruct (unknown_package_not_gated example_env fs self "c" "d" "2.0.0"
              eq_refl eq_refl eq_refl) as (Hcd & _).
  destruct (Hcd eq_refl) as (_ & _ & Hz').
  split; [|split].
  - apply (He example_hash_text (JObj [("hash", JStr example_digest)])
              (JStr example_digest)); reflexivity.
  - apply (proj2 (Hz eq_refl)). reflexivity.
  - apply (proj1 (Hz' eq_refl)). reflexivity.
Defined.

(** ** Verify *)

Section VerifyFacts.

Variables (E : Env) (fs : Files).

(** While no exception leaves the loop, it appends the error of every
    failing package, in order, to the errors collected so far. *)
Lemma verify_sweep_collects (pkgs : list entry) :
  forall errors,
    Forall (fun pkg => exists o, verify_package E fs (id pkg) = inr o) pkgs ->
    verify_sweep E fs pkgs errors
    = inr (errors ++ omap (package_error E fs) pkgs).
Proof.
  induction pkgs as [|pkg rest IH]; intros errors Hall; simpl.
  - now rewrite app_nil_r.
  - apply Forall_cons in Hall as [[o Ho] Hrest].
    unfold package_error at 1. rewrite Ho.
    destruct o as [err|].
    + rewrite IH by exact Hrest. now rewrite <- app_assoc.
    + now apply IH.
Qed.

(** The result is [True] exactly when nothing was collected. *)
Lemma verify_registry_result (registry : Registry) (errors : list verify_error) :
  verify_sweep E fs (success_packages registry) [] = inr errors ->
  verify_registry E fs registry = inr (bool_decide (errors = [])).
Proof.
  intros H. unfold verify_registry.
  destruct registry as [|pkg rest].
  - simpl in H. inversion H. reflexivity.
  - rewrite H. destruct errors; reflexivity.
Qed.

(** An exception other than the two the loop catches leaves [run_verify]. *)
Lemma verify_package_uncaught (package_id author name version : string)
    (zip text : list byte) (e : exn) :
  parse_package_id package_id = inr (author, name, version) ->
  fs !! (package_dir author name version +:+ "/package.zip") = Some zip ->
  fs !! (package_dir author name version +:+ "/hash.json") = Some text ->
  load_expected_hash E text = inl e ->
  is_JSONDecodeError_or_KeyError e = false ->
  verify_package E fs package_id = inl e.
Proof.
  intros Hp Hz Hh Hl He. unfold verify_package.
  now rewrite Hp, Hz, Hh, Hl, He.
Qed.

End VerifyFacts.

(** The registry of the examples names one successful package. *)
Lemma example_registry_loads (fs : Files) :
  fs !! "registry.json" = Some example_registry_text ->
  load_registry example_env fs = inr [Entry "a/b@1.0.0" STATUS_SUCCESS].
Proof. intros H. unfold load_registry. rewrite H. reflexivity. Qed.

(** C9, at an input where the code departs from it.  The archive of the
    one successful package is on disk and its [hash.json] holds the JSON
    text of an empty list: subscripting the list raises [TypeError], which
    the loop does not catch, so [run_verify] raises instead of collecting
    an error and returning [False]. *)
Theorem run_verify_raises_on_misshapen_hash_json :
  let fs : Files := {[ "registry.json" := example_registry_text;
                       "packages/a/b/1.0.0/package.zip" := [x50; x4b];
                       "packages/a/b/1.0.0/hash.json" := list_byte_of_string "[]" ]} in
  run_verify example_env fs = inl TypeError.
Proof. vm_compute. reflexivity. Qed.

(** The same with a [hash.json] that is not UTF-8: decoding raises
    [UnicodeDecodeError], which is not caught either. *)
Lemma run_verify_raises_on_undecodable_hash_json :
  let fs : Files := {[ "registry.json" := example_registry_text;
                       "packages/a/b/1.0.0/package.zip" := [x50; x4b];
                       "packages/a/b/1.0.0/hash.json" := [xff] ]} in
  run_verify example_env fs = inl UnicodeDecodeError.
Proof. vm_compute. reflexivity. Qed.

(** Where the code agrees with C9: a digest that does not match is
    collected and the result is [False]; with every file in place the
    result is [True]. *)
Lemma run_verify_examples :
  let bad : Files := {[ "registry.json" := example_registry_text;
                        "packages/a/b/1.0.0/package.zip" := [x50; x4b];
                        "packages/a/b/1.0.0/hash.json" := example_hash_text;
                        "packages/a/b/1.0.0/elm.json" := [] ]} in
  let good : Files := {[ "registry.json" := example_registry_text;
                         "packages/a/b/1.0.0/package.zip" := [];
                         "packages/a/b/1.0.0/hash.json" := example_hash_text;
                         "packages/a/b/1.0.0/elm.json" := [] ]} in
  run_verify example_env bad = inr false
  /\ run_verify example_env good = inr true
  /\ run_verify example_env ∅ = inr true.
Proof. vm_compute. repeat split. Qed.

(** ** Sync: what the steps of a download leave alone *)

Create HintDb keeps discriminated.

Section Keeps.

Variable E : Env.

Lemma keeps_ret {A} (a : A) : keeps (ret a).
Proof. intros w. split; reflexivity. Qed.

Lemma keeps_raise {A} (e : exn) : keeps (@raise A e).
Proof. intros w. split; reflexivity. Qed.

Lemma keeps_lift {A} (r : exn + A) : keeps (lift r).
Proof. intros w. split; reflexivity. Qed.

Lemma keeps_bind {A B} (c : M A) (k : A -> M B) :
  keeps c -> (forall a, keeps (k a)) -> keeps (bind c k).
Proof.
  intros Hc Hk w. unfold bind. specialize (Hc w).
  destruct (c w) as [w1 [e|a]]; simpl in *; [exact Hc|].
  specialize (Hk a w1). destruct Hk as [Hr Hl], Hc as [Hr' Hl'].
  split; congruence.
Qed.

Lemma keeps_get_files : keeps get_files.
Proof. intros w. split; reflexivity. Qed.

Lemma keeps_put_files (fs : Files) : keeps (put_files fs).
Proof. intros w. split; reflexivity. Qed.

Lemma synced_ids_fetch (log : list event) (url : string) :
  synced_ids (log ++ [Fetch url]) = synced_ids log.
Proof. unfold synced_ids. rewrite omap_app. simpl. apply app_nil_r. Qed.

Lemma synced_ids_syncing (log : list event) (package_id : string) :
  synced_ids (log ++ [Syncing package_id]) = synced_ids log ++ [package_id].
Proof. unfold synced_ids. now rewrite omap_app. Qed.

Lemma keeps_emit_fetch (url : string) : keeps (emit (Fetch url)).
Proof. intros w. split; [reflexivity|]. apply synced_ids_fetch. Qed.

Lemma keeps_check_fault (op : fs_op) : keeps (check_fault E op).
Proof. unfold check_fault. destruct (os_fault E op); [apply keeps_raise | apply keeps_ret]. Qed.

Hint Resolve keeps_ret keeps_raise keeps_lift keeps_get_files keeps_put_files
  keeps_emit_fetch keeps_check_fault : keeps.

Ltac keeps_step :=
  repeat first
    [ apply keeps_bind; [| intros ? ]
    | progress auto with keeps
    | match goal with
      | |- keeps (match ?x with _ => _ end) => destruct x
      end ].

Lemma keeps_mkdir (path : string) : keeps (mkdir E path).
Proof. unfold mkdir. auto with keeps. Qed.

Lemma keeps_write_file (path : string) (data : list byte) :
  keeps (write_file E path data).
Proof. unfold write_file. keeps_step. Qed.

Lemma keeps_rename (src dst : string) : keeps (rename E src dst).
Proof. unfold rename. keeps_step. Qed.

Lemma keeps_read_file (path : string) : keeps (read_file E path).
Proof. unfold read_file. keeps_step. Qed.

Lemma keeps_fetch_url (url : string) : keeps (fetch_url E url).
Proof. unfold fetch_url. keeps_step. Qed.

Hint Resolve keeps_mkdir keeps_write_file keeps_rename keeps_read_file
  keeps_fetch_url : keeps.

Lemma keeps_fetch_json (url : string) : keeps (fetch_json E url).
Proof. unfold fetch_json. keeps_step. Qed.

Hint Resolve keeps_fetch_json : keeps.

Lemma keeps_download_package_zip (zip_url : json) (dest_path : string) :
  keeps (download_package_zip E zip_url dest_path).
Proof. unfold download_package_zip. keeps_step. Qed.

Hint Resolve keeps_download_package_zip : keeps.

Lemma keeps_download_and_check (author name version : string) :
  keeps (download_and_check E author name version).
Proof.
  unfold download_and_check, fetch_package_endpoint, fetch_package_elm_json.
  keeps_step.
Qed.

(** [sync_package] on an identifier that parses: it returns, and the only
    change to the registry is the status of that identifier, success when
    the download ran to the end with equal digests, failed when any step
    raised or the digests differ. *)
Lemma sync_package_spec (package_id author name version : string) (w : World) :
  parse_package_id package_id = inr (author, name, version) ->
  let '(w1, r1) := download_and_check E author name version w in
  let ok := match r1 with inr true => true | _ => false end in
  sync_package E package_id w
  = (with_registry w1
       (set_package_status (w_registry w) package_id
          (if ok then STATUS_SUCCESS else STATUS_FAILED)),
     inr ok).
Proof.
  intros Hp. unfold sync_package. rewrite Hp.
  unfold try_except, bind at 1.
  pose proof (keeps_download_and_check author name version w) as [Hr _].
  destruct (download_and_check E author name version w) as [w1 [e|[|]]];
    simpl in Hr; cbn; rewrite Hr; reflexivity.
Qed.

(** With no fault on the registry file, [save_registry] returns and leaves
    the registry and the log as they were. *)
Lemma save_registry_ok (w : World) :
  registry_saves E ->
  exists fs', save_registry E w
              = ({| w_files := fs'; w_registry := w_registry w; w_log := w_log w |},
                 inr tt).
Proof.
  intros [Hw Hr]. unfold save_registry, write_file, rename, check_fault.
  rewrite Hw, Hr. cbn. rewrite lookup_insert_eq. cbn. eauto.
Qed.

Lemma keeps_save_registry : keeps (save_registry E).
Proof.
  unfold save_registry. apply keeps_bind; [|intros r; keeps_step].
  intros w. split; reflexivity.
Qed.

End Keeps.

(** ** Sync: the filter and the download loop *)

Section SyncLoop.

Variable E : Env.

Lemma sync_package_frame (package_id : string) (w : World) :
  synced_ids (w_log (fst (sync_package E package_id w))) = synced_ids (w_log w)
  /\ forall other, other <> package_id ->
       get_package_status (w_registry (fst (sync_package E package_id w))) other
       = get_package_status (w_registry w) other.
Proof.
  destruct (parse_package_id package_id) as [e|[[author name] version]] eqn:Hp.
  - unfold sync_package. rewrite Hp. split; reflexivity.
  - pose proof (sync_package_spec E package_id author name version w Hp) as Hs.
    pose proof (keeps_download_and_check E author name version w) as [_ Hl].
    destruct (download_and_check E author name version w) as [w1 r1].
    rewrite Hs. simpl in *. split; [exact Hl|].
    intros other Hne. now apply get_set_other.
Qed.

Lemma save_step_keeps (i : nat) :
  keeps (if (i mod 10 =? 0)%nat then save_registry E else ret tt).
Proof. destruct (i mod 10 =? 0)%nat; [apply keeps_save_registry | apply keeps_ret]. Qed.

(** Whatever happens, the loop prints the identifiers of a front part of
    its list, in order, and touches the status of no identifier outside
    the list. *)
Lemma sync_loop_frame (packages_to_sync : list string) :
  forall (i : nat) (counts : nat * nat) (w w' : World) (r : exn + nat * nat),
    sync_loop E i packages_to_sync counts w = (w', r) ->
    (exists xs, xs `prefix_of` packages_to_sync
                /\ synced_ids (w_log w') = synced_ids (w_log w) ++ xs)
    /\ (forall other, other ∉ packages_to_sync ->
          get_package_status (w_registry w') other
          = get_package_status (w_registry w) other).
Proof.
  induction packages_to_sync as [|pkg_id rest IH]; intros i counts w w' r Hrun.
  - inversion Hrun; subst. split; [|reflexivity].
    exists []. split; [reflexivity|]. now rewrite app_nil_r.
  - cbn [sync_loop] in Hrun. unfold bind at 1 in Hrun. cbn [emit] in Hrun.
    unfold bind at 1 in Hrun.
    match type of Hrun with
    | context [sync_package E pkg_id ?w0] =>
        pose proof (sync_package_frame pkg_id w0) as [Hl1 Hr1];
        destruct (sync_package E pkg_id w0) as [w1 [e|ok]]
    end; cbn [fst w_log w_registry] in Hl1, Hr1;
      rewrite synced_ids_syncing in Hl1.
    { inversion Hrun; subst. split.
      - exists [pkg_id]. split; [apply prefix_cons, prefix_nil | exact Hl1].
      - intros other Hn. apply Hr1. set_solver. }
    unfold bind at 1 in Hrun.
    pose proof (save_step_keeps i w1) as [Hr2 Hl2].
    destruct ((if (i mod 10 =? 0)%nat then save_registry E else ret tt) w1)
      as [w2 [e|[]]]; cbn [fst] in Hr2, Hl2.
    { inversion Hrun; subst. split.
      - exists [pkg_id]. split; [apply prefix_cons, prefix_nil | congruence].
      - intros other Hn. rewrite Hr2. apply Hr1. set_solver. }
    apply IH in Hrun as [(xs & Hpre & Hlog) Hreg]. split.
    + exists (pkg_id :: xs). split; [now apply prefix_cons|].
      rewrite Hlog, Hl2, Hl1, <- app_assoc. reflexivity.
    + intros other Hn. rewrite Hreg by set_solver. rewrite Hr2.
      apply Hr1. set_solver.
Qed.

(** When every identifier parses and the registry file can be written,
    the loop goes through the whole list and returns. *)
Lemma sync_loop_completes (packages_to_sync : list string) :
  Forall parses packages_to_sync -> registry_saves E ->
  forall (i : nat) (counts : nat * nat) (w : World),
  exists w' succeeded failed,
    sync_loop E i packages_to_sync counts w = (w', inr (succeeded, failed))
    /\ succeeded + failed = fst counts + snd counts + length packages_to_sync
    /\ synced_ids (w_log w') = synced_ids (w_log w) ++ packages_to_sync.
Proof.
  intros Hall Hsave.
  induction packages_to_sync as [|pkg_id rest IH]; intros i counts w.
  - exists w, (fst counts), (snd counts). simpl.
    rewrite app_nil_r, Nat.add_0_r. destruct counts. auto.
  - apply Forall_cons in Hall as [[[[author name] version] Hp] Hrest].
    specialize (IH Hrest).
    cbn [sync_loop]. unfold bind at 1. cbn [emit].
    set (w0 := {| w_files := w_files w; w_registry := w_registry w;
                  w_log := w_log w ++ [Syncing pkg_id] |}).
    assert (Hlog0 : synced_ids (w_log w0) = synced_ids (w_log w) ++ [pkg_id])
      by apply synced_ids_syncing.
    unfold bind at 1.
    pose proof (sync_package_frame pkg_id w0) as [Hl1 _].
    pose proof (sync_package_spec E pkg_id author name version w0 Hp) as Hs.
    destruct (download_and_check E author name version w0) as [wd rd].
    rewrite Hs in Hl1 |- *. cbn [fst] in Hl1.
    set (ok := match rd with inr true => true | _ => false end) in *.
    set (w1 := with_registry wd _) in *.
    unfold bind at 1.
    assert (exists w2, (if (i mod 10 =? 0)%nat then save_registry E else ret tt) w1
                       = (w2, inr tt) /\ w_log w2 = w_log w1) as (w2 & -> & Hl2).
    { destruct (i mod 10 =? 0)%nat.
      - destruct (save_registry_ok E w1 Hsave) as [fs' ->]. eauto.
      - eexists. split; reflexivity. }
    destruct (IH (S i)
                 (if ok then (S (fst counts), snd counts)
                  else (fst counts, S (snd counts))) w2)
      as (w' & s & f & -> & Hsum & Hlog).
    exists w', s, f. split; [reflexivity|]. split.
    + rewrite Hsum. destruct ok; simpl; lia.
    + rewrite Hlog, Hl2, Hl1, Hlog0, <- app_assoc. reflexivity.
Qed.

End SyncLoop.

Section Filter.

Variable pl : gset string.

Lemma should_sync_parses (package_id : string) :
  parses package_id ->
  should_sync_package package_id (Some pl) = inr (allowed pl package_id).
Proof.
  intros [[[author name] version] Hp]. unfold allowed, should_sync_package.
  rewrite Hp. case_bool_decide; [reflexivity|].
  case_bool_decide; reflexivity.
Qed.

(** The package list allows an identifier that is itself in the list or
    whose [author/name] is. *)
Lemma allowed_iff (package_id author name version : string) :
  parse_package_id package_id = inr (author, name, version) ->
  allowed pl package_id = true
  <-> package_id ∈ pl \/ author +:+ "/" +:+ name ∈ pl.
Proof.
  intros Hp. unfold allowed, should_sync_package. rewrite Hp.
  repeat case_bool_decide; split; auto; intros Hx;
    try discriminate; destruct Hx; contradiction.
Qed.

(** The filter loop keeps the allowed identifiers in their order and marks
    the others ignored; it fetches nothing and writes no file. *)
Lemma filter_loop_spec (packages_to_sync : list string) :
  Forall parses packages_to_sync ->
  forall (filtered : list string) (w : World),
    filter_loop pl packages_to_sync filtered w
    = (with_registry w (mark_ignored pl packages_to_sync (w_registry w)),
       inr (filtered ++ filter (fun i => allowed pl i = true) packages_to_sync)).
Proof.
  induction packages_to_sync as [|pkg_id rest IH]; intros Hall filtered w.
  - simpl. rewrite app_nil_r. now destruct w.
  - apply Forall_cons in Hall as [Hp Hrest].
    cbn [filter_loop mark_ignored fold_left]. unfold bind at 1, lift.
    rewrite (should_sync_parses pkg_id Hp).
    rewrite filter_cons.
    destruct (allowed pl pkg_id) eqn:Ha.
    + rewrite decide_True by reflexivity.
      rewrite (IH Hrest). now rewrite <- app_assoc.
    + rewrite decide_False by discriminate.
      unfold bind at 1. cbn. rewrite (IH Hrest). reflexivity.
Qed.

Lemma mark_ignored_keeps (packages_to_sync : list string) :
  forall (registry : Registry) (package_id : string),
    allowed pl package_id = false ->
    get_package_status registry package_id = Some STATUS_IGNORED ->
    get_package_status (mark_ignored pl packages_to_sync registry) package_id
    = Some STATUS_IGNORED.
Proof.
  induction packages_to_sync as [|x rest IH]; intros registry package_id Ha Hg;
    [exact Hg|].
  cbn [mark_ignored fold_left]. apply IH; [exact Ha|].
  destruct (should_sync_package x (Some pl)) as [e|[|]]; try exact Hg.
  destruct (decide (package_id = x)) as [->|Hne].
  - apply get_set_same.
  - now rewrite get_set_other.
Qed.

Lemma mark_ignored_marks (packages_to_sync : list string) :
  Forall parses packages_to_sync ->
  forall (registry : Registry) (package_id : string),
    package_id ∈ packages_to_sync ->
    allowed pl package_id = false ->
    get_package_status (mark_ignored pl packages_to_sync registry) package_id
    = Some STATUS_IGNORED.
Proof.
  induction packages_to_sync as [|x rest IH]; intros Hall registry package_id Hin Ha.
  - inversion Hin.
  - apply Forall_cons in Hall as [Hp Hrest].
    cbn [mark_ignored fold_left].
    apply elem_of_cons in Hin as [->|Hin].
    + rewrite (should_sync_parses x Hp), Ha.
      apply mark_ignored_keeps; [exact Ha | apply get_set_same].
    + now apply IH.
Qed.

End Filter.

(** C5.  With a package list and a work-list of well-formed identifiers:
    the filter keeps, in order, exactly the identifiers that are in the
    list or whose [author/name] is, fetching nothing; every other
    identifier of the work-list is off the list handed to the download
    loop, is marked ignored at once and still is when the run ends, and
    no download of it is attempted; when the registry file can be written
    the kept identifiers are all attempted, in order. *)
Theorem policy_filters_worklist (E : Env) (pl : gset string)
    (packages_to_sync : list string) (w : World) :
  Forall parses packages_to_sync ->
  let kept := filter (fun i => allowed pl i = true) packages_to_sync in
  exists w1 w2 r,
    filter_by_package_list (Some pl) packages_to_sync w = (w1, inr kept)
    /\ w_files w1 = w_files w /\ w_log w1 = w_log w
    /\ process_worklist E (Some pl) packages_to_sync w = (w2, r)
    /\ (forall package_id author name version,
          parse_package_id package_id = inr (author, name, version) ->
          (allowed pl package_id = true
           <-> package_id ∈ pl \/ author +:+ "/" +:+ name ∈ pl))
    /\ (forall package_id,
          package_id ∈ packages_to_sync -> allowed pl package_id = false ->
          (package_id ∉ kept)
          /\ get_package_status (w_registry w1) package_id = Some STATUS_IGNORED
          /\ get_package_status (w_registry w2) package_id = Some STATUS_IGNORED
          /\ exists xs, synced_ids (w_log w2) = synced_ids (w_log w) ++ xs
                        /\ package_id ∉ xs)
    /\ (forall package_id,
          package_id ∈ packages_to_sync -> allowed pl package_id = true ->
          package_id ∈ kept)
    /\ (registry_saves E ->
        exists counts, r = inr counts
                       /\ synced_ids (w_log w2) = synced_ids (w_log w) ++ kept).
Proof.
  intros Hall kept.
  assert (Hkept : forall x, x ∈ kept <-> allowed pl x = true /\ x ∈ packages_to_sync)
    by (intros x; unfold kept; now rewrite list_elem_of_filter).
  assert (Hfilter : filter_by_package_list (Some pl) packages_to_sync w
                    = (with_registry w (mark_ignored pl packages_to_sync (w_registry w)),
                       inr kept))
    by (unfold filter_by_package_list; now rewrite filter_loop_spec).
  set (w1 := with_registry w (mark_ignored pl packages_to_sync (w_registry w))) in *.
  assert (Hign1 : forall x, x ∈ packages_to_sync -> allowed pl x = false ->
                            get_package_status (w_registry w1) x = Some STATUS_IGNORED)
    by (intros x Hin Ha; now apply mark_ignored_marks).
  destruct (sync_loop E 1 kept (0, 0) w1) as [wl rl] eqn:Hrun.
  pose proof (sync_loop_frame E kept 1 (0, 0) w1 wl rl Hrun)
    as [(xs & Hpre & Hlog) Hreg].
  assert (Hkeptparse : Forall parses kept).
  { apply Forall_forall. intros x Hx. apply Hkept in Hx as [_ Hx].
    revert x Hx. now apply Forall_forall. }
  destruct rl as [e|cnt].
  - (* the loop raised: the run stops there *)
    exists w1, wl, (inl e). split; [exact Hfilter|].
    split; [reflexivity|]. split; [reflexivity|]. split.
    { unfold process_worklist, bind. now rewrite Hfilter, Hrun. }
    split; [intros ? ? ? ? Hp; exact (allowed_iff pl _ _ _ _ Hp)|]. split; [|split].
    + intros x Hin Ha.
      assert (x ∉ kept) as Hnot by (rewrite Hkept; intros [? _]; congruence).
      split; [exact Hnot|]. split; [now apply Hign1|]. split.
      * rewrite Hreg by exact Hnot. now apply Hign1.
      * exists xs. split; [exact Hlog|].
        intros Hx. apply Hnot. destruct Hpre as [k ->]. set_solver.
    + intros x Hin Ha. apply Hkept. auto.
    + intros Hsave.
      destruct (sync_loop_completes E kept Hkeptparse Hsave 1 (0, 0) w1)
        as (w' & s & f & Hrun' & _).
      rewrite Hrun' in Hrun. discriminate.
  - (* the loop returned: the final save follows *)
    pose proof (keeps_save_registry E wl) as [Hr3 Hl3].
    destruct (save_registry E wl) as [w2 r2] eqn:Hsave2. cbn [fst] in Hr3, Hl3.
    exists w1, w2, (match r2 with inl e => inl e | inr _ => inr cnt end).
    split; [exact Hfilter|].
    split; [reflexivity|]. split; [reflexivity|]. split.
    { unfold process_worklist, bind. rewrite Hfilter, Hrun, Hsave2.
      destruct r2; reflexivity. }
    split; [intros ? ? ? ? Hp; exact (allowed_iff pl _ _ _ _ Hp)|]. split; [|split].
    + intros x Hin Ha.
      assert (x ∉ kept) as Hnot by (rewrite Hkept; intros [? _]; congruence).
      split; [exact Hnot|]. split; [now apply Hign1|]. split.
      * rewrite Hr3, Hreg by exact Hnot. now apply Hign1.
      * exists xs. split; [now rewrite Hl3|].
        intros Hx. apply Hnot. destruct Hpre as [k ->]. set_solver.
    + intros x Hin Ha. apply Hkept. auto.
    + intros Hsave.
      destruct (sync_loop_completes E kept Hkeptparse Hsave 1 (0, 0) w1)
        as (w' & s & f & Hrun' & _ & Hlog').
      rewrite Hrun' in Hrun. inversion Hrun; subst wl cnt.
      destruct (save_registry_ok E w' Hsave) as [fs' Hok].
      rewrite Hok in Hsave2. inversion Hsave2; subst w2 r2.
      exists (s, f). split; [reflexivity|]. exact Hlog'.
Qed.

(** C5 on the example upstream with the package list [["a/b"]]:
    [c/d@2.0.0] is filtered out, [a/b@1.0.0] stays. *)
Lemma policy_filters_worklist_witness :
  let pl : gset string := {[ "a/b" ]} in
  let worklist := ["c/d@2.0.0"; "a/b@1.0.0"] in
  let kept := filter (fun i => allowed pl i = true) worklist in
  kept = ["a/b@1.0.0"]
  /\ exists w1 w2 r,
       filter_by_package_list (Some pl) worklist empty_world = (w1, inr kept)
       /\ process_worklist example_upstream (Some pl) worklist empty_world = (w2, r)
       /\ get_package_status (w_registry w2) "c/d@2.0.0" = Some STATUS_IGNORED
       /\ synced_ids (w_log w2) = [] ++ kept.
Proof.
  intros pl worklist kept. split; [vm_compute; reflexivity|].
  assert (Hparse : Forall parses worklist)
    by (repeat constructor; eexists; vm_compute; reflexivity).
  destruct (policy_filters_worklist example_upstream pl worklist empty_world Hparse)
    as (w1 & w2 & r & Hf & _ & _ & Hp & _ & Hign & _ & Hrun).
  exists w1, w2, r. split; [exact Hf|]. split; [exact Hp|]. split.
  - apply (Hign "c/d@2.0.0"); [apply list_elem_of_here | vm_compute; reflexivity].
  - destruct Hrun as (counts & _ & Hlog); [split; reflexivity | exact Hlog].
Defined.

(** A whole run against the example upstream, without and with the
    package list [["c/d"]]. *)
Lemma run_sync_examples :
  (let '(w, r) := run_sync example_upstream None empty_world in
   (w_registry w, synced_ids (w_log w), r))
  = ([Entry "a/b@1.0.0" STATUS_SUCCESS; Entry "c/d@2.0.0" STATUS_FAILED],
     ["c/d@2.0.0"; "a/b@1.0.0"], inr (1, 1))
  /\ (let '(w, r) := run_sync example_upstream (Some {[ "c/d" ]}) empty_world in
      (w_registry w, synced_ids (w_log w), r))
     = ([Entry "a/b@1.0.0" STATUS_IGNORED; Entry "c/d@2.0.0" STATUS_FAILED],
        ["c/d@2.0.0"], inr (0, 1)).
Proof. vm_compute. split; reflexivity. Qed.

(** ** Test vectors *)

Example sha1_abc :
  compute_sha1 (list_byte_of_string "abc")
  = "a9993e364706816aba3e25717850c26c9cd0d89d".
Proof. vm_compute. reflexivity. Qed.

Example sha1_empty : compute_sha1 [] = example_digest.
Proof. vm_compute. reflexivity. Qed.

Example sha1_two_blocks :
  compute_sha1_chunked 7
    (list_byte_of_string
       "abcdbcdecdefdefgefghfghighijhijkijkljklmklmnlmnomnopnopq")
  = "84983e441c3bd26ebaae4aa1f95129e5e54670f1".
Proof. vm_compute. reflexivity. Qed.

Example parse_package_id_examples :
  parse_package_id "elm/core@1.0.5" = inr ("elm", "core", "1.0.5")
  /\ parse_package_id "elm-core" = inl (ValueError "Invalid package ID: elm-core")
  /\ parse_package_id "a/b/c@1" = inr ("a", "b/c", "1").
Proof. repeat split. Qed.

(** * Further properties of the code *)

(** ** Package identifiers *)

Section Identifiers.

Lemma split_first_inv (c : ascii) (s x y : string) :
  split_first c s = Some (x, y) ->
  s = x +:+ String c y /\ has_char c x = false.
Proof.
  revert x. induction s as [|a s IH]; intros x H; simpl in H; [discriminate|].
  destruct (Ascii.eqb a c) eqn:E.
  - apply Ascii.eqb_eq in E. inversion H; subst. split; reflexivity.
  - destruct (split_first c s) as [[x' y']|]; [|discriminate].
    inversion H; subst. destruct (IH x' eq_refl) as [-> Hx].
    split; [reflexivity|]. simpl. now rewrite E.
Qed.

Lemma chomp_inv (s : string) :
  chomp s = s \/ s = chomp s +:+ String newline EmptyString.
Proof.
  induction s as [|a s IH]; [now left|].
  destruct s as [|b s].
  - simpl. destruct (Ascii.eqb a newline) eqn:E; [|now left].
    apply Ascii.eqb_eq in E. subst. now right.
  - change (chomp (String a (String b s))) with (String a (chomp (String b s))).
    destruct IH as [->| IH]; [now left|].
    right.
    change (String a (String b s)
            = String a (chomp (String b s) +:+ String newline EmptyString)).
    now rewrite <- IH.
Qed.

Lemma split_first_sep (c : ascii) (a r : string) :
  has_char c a = false ->
  split_first c (a +:+ String c EmptyString +:+ r) = Some (a, r).
Proof. exact (split_first_app c a r). Qed.

End Identifiers.

(** X1.  Rendering a triple as [author/name@version] and parsing it gives
    the triple back, when the author is non-empty without [/], the name
    non-empty without [@] and the version non-empty without a newline. *)
Theorem parse_render_id (author name version : string) :
  segment author = true -> name_ok name = true -> version_ok version = true ->
  parse_package_id (render_id author name version) = inr (author, name, version).
Proof.
  unfold segment, name_ok, version_ok. intros Ha Hn Hv.
  apply andb_true_iff in Ha as [Ha1 Ha2]. apply negb_true_iff in Ha2.
  apply andb_true_iff in Hn as [Hn1 Hn2]. apply negb_true_iff in Hn2.
  apply andb_true_iff in Hv as [Hv1 Hv2]. apply negb_true_iff in Hv2.
  unfold parse_package_id, render_id.
  rewrite (split_first_slash author) by exact Ha2. cbv iota beta.
  rewrite (split_first_sep "@" name version) by exact Hn2. cbv iota beta zeta.
  rewrite (chomp_no_newline version) by exact Hv2.
  now rewrite Ha1, Hn1, Hv1, Hv2.
Qed.

Lemma parse_render_id_witness :
  segment "elm" = true /\ name_ok "core" = true /\ version_ok "1.0.5" = true
  /\ parse_package_id (render_id "elm" "core" "1.0.5") = inr ("elm", "core", "1.0.5").
Proof.
  do 3 (split; [reflexivity|]).
  exact (parse_render_id "elm" "core" "1.0.5" eq_refl eq_refl eq_refl).
Defined.

Lemma parse_inv (package_id author name version : string) :
  parse_package_id package_id = inr (author, name, version) ->
  (package_id = render_id author name version
   \/ package_id = render_id author name version +:+ String newline EmptyString)
  /\ segment author = true /\ name_ok name = true /\ version_ok version = true.
Proof.
  unfold parse_package_id. intros H.
  destruct (split_first "/" package_id) as [[a rest]|] eqn:E1; [|discriminate].
  destruct (split_first "@" rest) as [[n tail]|] eqn:E2; [|discriminate].
  cbv zeta in H.
  destruct (nonempty a && nonempty n && nonempty (chomp tail)
            && negb (has_char newline (chomp tail))) eqn:Hc; [|discriminate].
  inversion H; subst author name version. clear H.
  apply andb_true_iff in Hc as [Hc Hnl].
  apply andb_true_iff in Hc as [Hc Hv].
  apply andb_true_iff in Hc as [Ha Hn].
  apply split_first_inv in E1 as [-> Ha'].
  apply split_first_inv in E2 as [-> Hn'].
  split; [|unfold segment, name_ok, version_ok;
           now rewrite Ha, Ha', Hn, Hn', Hv, Hnl].
  unfold render_id.
  destruct (chomp_inv tail) as [->|Ht]; [now left|].
  right. rewrite Ht at 1. now rewrite !app_assoc_s.
Qed.

(** X2.  An identifier that parses is its three groups rendered back,
    possibly followed by one newline (which the pattern's [$] lets
    through and the version group leaves out); the groups are again
    well-formed. *)
Theorem parse_package_id_inv (package_id author name version : string) :
  parse_package_id package_id = inr (author, name, version) ->
  (package_id = render_id author name version
   \/ package_id = render_id author name version +:+ String newline EmptyString)
  /\ segment author = true /\ name_ok name = true /\ version_ok version = true.
Proof. apply parse_inv. Qed.

Lemma parse_package_id_inv_witness :
  let package_id := "elm/core@1.0.5" +:+ String newline EmptyString in
  (package_id = render_id "elm" "core" "1.0.5"
   \/ package_id = render_id "elm" "core" "1.0.5" +:+ String newline EmptyString)
  /\ segment "elm" = true /\ name_ok "core" = true /\ version_ok "1.0.5" = true.
Proof.
  exact (parse_package_id_inv ("elm/core@1.0.5" +:+ String newline EmptyString)
           "elm" "core" "1.0.5" eq_refl).
Defined.

(** X3.  [parse_package_id] fails in one way only, with the [ValueError]
    that quotes the identifier; this happens in particular for every
    identifier without [/] and every identifier without [@]. *)
Theorem parse_package_id_error (package_id : string) :
  (forall e, parse_package_id package_id = inl e ->
             e = ValueError ("Invalid package ID: " +:+ package_id))
  /\ (has_char "/" package_id = false \/ has_char "@" package_id = false ->
      parse_package_id package_id
      = inl (ValueError ("Invalid package ID: " +:+ package_id))).
Proof.
  assert (H1 : forall e, parse_package_id package_id = inl e ->
                         e = ValueError ("Invalid package ID: " +:+ package_id)).
  { unfold parse_package_id. intros e H.
    destruct (split_first "/" package_id) as [[a rest]|]; [|now inversion H].
    destruct (split_first "@" rest) as [[n tail]|]; [|now inversion H].
    cbv zeta in H.
    destruct (_ && _); [discriminate | now inversion H]. }
  split; [exact H1|].
  - intros Hno.
    destruct (parse_package_id package_id) as [e|[[a n] v]] eqn:Hp.
    + f_equal. now apply H1.
    + exfalso. apply parse_inv in Hp as [Hid (Ha & Hn & Hv)].
      assert (Hhas : forall c x y, has_char c (x +:+ String c y) = true).
      { intros c x y. induction x as [|b x IH]; simpl.
        - now rewrite ascii_eqb_refl.
        - rewrite IH. apply orb_true_r. }
      assert (Happ : forall c x y, has_char c y = true -> has_char c (x +:+ y) = true).
      { intros c x y Hy. induction x as [|b x IH]; simpl; [exact Hy|].
        rewrite IH. apply orb_true_r. }
      assert (Happl : forall c x y, has_char c x = true -> has_char c (x +:+ y) = true).
      { intros c x y Hx. induction x as [|b x IH]; simpl in *; [discriminate|].
        apply orb_true_iff in Hx as [->|Hx]; [reflexivity|].
        rewrite (IH Hx). apply orb_true_r. }
      assert (Hs : has_char "/" (render_id a n v) = true) by apply Hhas.
      assert (Ht : has_char "@" (render_id a n v) = true)
        by (unfold render_id; apply Happ, (Hhas "@"%char n v)).
      destruct Hid as [->| ->], Hno as [Hno|Hno];
        rewrite ?Happl in Hno by assumption; congruence.
Qed.

(** X4.  [should_sync_package] raises exactly when a package list is
    given, the identifier is not an entry of it and the identifier does
    not parse; without a list, or for an identifier listed as it stands,
    the answer is [True] whether or not the identifier is well-formed. *)
Theorem should_sync_package_raises (package_id : string)
    (package_list : option (gset string)) (e : exn) :
  (should_sync_package package_id package_list = inl e
   <-> exists pl, package_list = Some pl /\ (package_id ∉ pl)
                  /\ parse_package_id package_id = inl e)
  /\ should_sync_package package_id None = inr true
  /\ (forall pl : gset string, package_id ∈ pl ->
        should_sync_package package_id (Some pl) = inr true).
Proof.
  split; [|split].
  - unfold should_sync_package. destruct package_list as [pl|].
    + case_bool_decide as Hin.
      * split; [discriminate|]. intros (pl' & Heq & Hn & _).
        inversion Heq; subst. contradiction.
      * destruct (parse_package_id package_id) as [e'|[[a n] v]].
        -- split.
           ++ intros H. inversion H; subst. eauto.
           ++ intros (pl' & _ & _ & H). now inversion H.
        -- split.
           ++ case_bool_decide; discriminate.
           ++ intros (pl' & _ & _ & H). discriminate.
    + split; [discriminate|]. intros (pl' & Heq & _). discriminate.
  - reflexivity.
  - intros pl Hin. unfold should_sync_package.
    now rewrite bool_decide_eq_true_2.
Qed.

(** ** Registry entries *)

Section RegistryIds.

Lemma get_status_None_iff (registry : Registry) (package_id : string) :
  get_package_status registry package_id = None <-> package_id ∉ ids registry.
Proof.
  induction registry as [|pkg rest IH]; simpl.
  - split; [set_solver | reflexivity].
  - destruct (String.eqb (id pkg) package_id) eqn:E.
    + apply String.eqb_eq in E. split; [discriminate|]. set_solver.
    + apply String.eqb_neq in E. rewrite IH. set_solver.
Qed.

Lemma get_status_elem (registry : Registry) (package_id st : string) :
  NoDup (ids registry) ->
  Entry package_id st ∈ registry ->
  get_package_status registry package_id = Some st.
Proof.
  induction registry as [|pkg rest IH]; intros Hnd Hin; [inversion Hin|].
  simpl in Hnd. apply NoDup_cons in Hnd as [Hnot Hnd].
  apply elem_of_cons in Hin as [<-|Hin]; simpl.
  - now rewrite String.eqb_refl.
  - destruct (String.eqb (id pkg) package_id) eqn:E.
    + apply String.eqb_eq in E. exfalso. apply Hnot. rewrite E.
      change package_id with (id (Entry package_id st)).
      now apply list_elem_of_fmap_2.
    + now apply IH.
Qed.

Lemma set_status_ids_known (registry : Registry) (package_id st : string) :
  package_id ∈ ids registry ->
  ids (set_package_status registry package_id st) = ids registry.
Proof.
  induction registry as [|pkg rest IH]; intros Hin; [inversion Hin|].
  cbn [set_package_status].
  destruct (String.eqb (id pkg) package_id) eqn:E; [reflexivity|].
  apply String.eqb_neq in E. cbn [ids map] in *. f_equal.
  apply IH. apply elem_of_cons in Hin as [Hin|Hin]; [congruence | exact Hin].
Qed.

Lemma set_status_ids_new (registry : Registry) (package_id st : string) :
  package_id ∉ ids registry ->
  ids (set_package_status registry package_id st) = ids registry ++ [package_id].
Proof.
  induction registry as [|pkg rest IH]; intros Hin; [reflexivity|].
  cbn [set_package_status].
  destruct (String.eqb (id pkg) package_id) eqn:E.
  - apply String.eqb_eq in E. exfalso. apply Hin. cbn [ids map]. rewrite E.
    apply list_elem_of_here.
  - cbn [ids map app] in *. f_equal. apply IH.
    intros H. apply Hin. now apply list_elem_of_further.
Qed.

Lemma set_status_ids (registry : Registry) (package_id st : string) :
  ids (set_package_status registry package_id st)
  = if bool_decide (package_id ∈ ids registry) then ids registry
    else ids registry ++ [package_id].
Proof.
  case_bool_decide; [now apply set_status_ids_known | now apply set_status_ids_new].
Qed.

End RegistryIds.

(** X5.  [set_package_status] never changes which identifiers the
    registry holds nor their order, except for appending the identifier
    when it is new; so it keeps identifiers unique, and it leaves the
    status of every other identifier as it was. *)
Theorem set_package_status_keeps_ids (registry : Registry) (package_id st : string) :
  ids (set_package_status registry package_id st)
  = (if bool_decide (package_id ∈ ids registry) then ids registry
     else ids registry ++ [package_id])
  /\ (NoDup (ids registry) -> NoDup (ids (set_package_status registry package_id st)))
  /\ (forall other, other <> package_id ->
        get_package_status (set_package_status registry package_id st) other
        = get_package_status registry other).
Proof.
  split; [apply set_status_ids|]. split.
  - intros Hnd. rewrite set_status_ids. case_bool_decide as Hin; [exact Hnd|].
    apply NoDup_app. split; [exact Hnd|]. split.
    + intros x Hx Hx'. apply list_elem_of_singleton in Hx'. now subst.
    + apply NoDup_singleton.
  - intros other Hne. now apply get_set_other.
Qed.

(** ** Discovery and the work-list *)

Section WorkList.

Lemma discover_found (remote : list string) :
  forall (existing : gset string) (registry : Registry) (acc : list string),
  exists found,
    discover remote existing registry acc
    = (rev (map (fun i => Entry i STATUS_PENDING) found) ++ registry,
       acc ++ found)
    /\ NoDup found
    /\ (forall i, i ∈ found <-> i ∈ remote /\ i ∉ existing).
Proof.
  induction remote as [|pkg_id rest IH]; intros existing registry acc; simpl.
  - exists []. rewrite app_nil_r. split; [reflexivity|].
    split; [constructor | set_solver].
  - case_bool_decide as Hin.
    + destruct (IH existing registry acc) as (found & -> & Hnd & Hf).
      exists found. split; [reflexivity|]. split; [exact Hnd|].
      intros i. rewrite Hf. set_solver.
    + destruct (IH ({[pkg_id]} ∪ existing)
                   (Entry pkg_id STATUS_PENDING :: registry)
                   (acc ++ [pkg_id])) as (found & -> & Hnd & Hf).
      exists (pkg_id :: found). split; [|split].
      * simpl. rewrite <- !app_assoc. reflexivity.
      * apply NoDup_cons. split; [|exact Hnd]. rewrite Hf. set_solver.
      * intros i. rewrite elem_of_cons, Hf. clear Hf.
        destruct (decide (i = pkg_id)); set_solver.
Qed.

Lemma discover_known (remote : list string) (existing : gset string)
    (registry : Registry) (acc : list string) :
  (forall i, i ∈ remote -> i ∈ existing) ->
  discover remote existing registry acc = (registry, acc).
Proof.
  induction remote as [|pkg_id rest IH]; intros H; simpl; [reflexivity|].
  rewrite bool_decide_eq_true_2 by (apply H; set_solver).
  apply IH. intros i Hi. apply H. set_solver.
Qed.

Lemma ids_pending (found : list string) :
  ids (map (fun i => Entry i STATUS_PENDING) found) = found.
Proof. unfold ids. rewrite map_map. simpl. apply map_id. Qed.

Lemma failed_packages_app (r1 r2 : Registry) :
  failed_packages (r1 ++ r2) = failed_packages r1 ++ failed_packages r2.
Proof.
  induction r1 as [|pkg r1 IH]; [reflexivity|].
  unfold failed_packages, Registry in *. cbn [app]. rewrite !filter_cons.
  destruct (decide (status pkg = STATUS_FAILED)); cbn [map app]; now rewrite IH.
Qed.

Lemma failed_packages_pending (found : list string) :
  failed_packages (rev (map (fun i => Entry i STATUS_PENDING) found)) = [].
Proof.
  induction found as [|i found IH]; [reflexivity|].
  cbn [map rev]. rewrite failed_packages_app, IH. reflexivity.
Qed.

Lemma elem_of_failed_packages (registry : Registry) (package_id : string) :
  package_id ∈ failed_packages registry
  <-> Entry package_id STATUS_FAILED ∈ registry.
Proof.
  unfold failed_packages. rewrite list_elem_of_fmap. split.
  - intros ([i s] & -> & Hin). apply list_elem_of_filter in Hin as [Hs Hin].
    simpl in *. now subst.
  - intros Hin. exists (Entry package_id STATUS_FAILED). split; [reflexivity|].
    apply list_elem_of_filter. split; [reflexivity | exact Hin].
Qed.

End WorkList.

(** X6.  Discovery keeps the registry's identifiers unique: starting from
    unique identifiers and the set of them, the new identifiers are
    pairwise distinct (a listing that repeats one adds it once), none of
    them was known, the old entries follow the new ones unchanged and in
    their order, and the result again has unique identifiers. *)
Theorem discover_keeps_ids_unique (remote : list string) (registry : Registry) :
  NoDup (ids registry) ->
  let '(registry1, new_packages) :=
    discover remote (list_to_set (ids registry)) registry [] in
  registry1 = rev (map (fun i => Entry i STATUS_PENDING) new_packages) ++ registry
  /\ NoDup new_packages
  /\ (forall i, i ∈ new_packages <-> i ∈ remote /\ i ∉ ids registry)
  /\ NoDup (ids registry1).
Proof.
  intros Hnd.
  destruct (discover_found remote (list_to_set (ids registry)) registry [])
    as (found & -> & Hf & Hiff).
  simpl. split; [reflexivity|]. split; [exact Hf|].
  assert (Hiff' : forall i, i ∈ found <-> i ∈ remote /\ i ∉ ids registry)
    by (intros i; rewrite Hiff; set_solver).
  split; [exact Hiff'|].
  unfold ids. rewrite map_app, map_rev. fold (ids registry).
  fold (ids (map (fun i => Entry i STATUS_PENDING) found)). rewrite ids_pending.
  apply NoDup_app. split.
  { apply NoDup_ListNoDup, List.NoDup_rev, NoDup_ListNoDup, Hf. }
  split; [|exact Hnd].
  intros x Hx. rewrite list_elem_of_In, <- in_rev, <- list_elem_of_In in Hx.
  now apply Hiff' in Hx.
Qed.

Lemma discover_keeps_ids_unique_witness :
  let registry := [Entry "a/b@1.0.0" STATUS_SUCCESS] in
  let remote := ["c/d@2.0.0"; "a/b@1.0.0"; "c/d@2.0.0"] in
  let '(registry1, new_packages) :=
    discover remote (list_to_set (ids registry)) registry [] in
  registry1 = rev (map (fun i => Entry i STATUS_PENDING) new_packages) ++ registry
  /\ NoDup new_packages
  /\ (forall i, i ∈ new_packages <-> i ∈ remote /\ i ∉ ids registry)
  /\ NoDup (ids registry1).
Proof.
  intros registry remote.
  apply (discover_keeps_ids_unique remote registry).
  repeat constructor. set_solver.
Defined.

(** X7.  Discovery is idempotent: run again on its own result with the
    same listing, it finds nothing new and leaves the registry alone. *)
Theorem discover_idempotent (remote : list string) (registry : Registry) :
  let '(registry1, _) :=
    discover remote (list_to_set (ids registry)) registry [] in
  discover remote (list_to_set (ids registry1)) registry1 [] = (registry1, []).
Proof.
  destruct (discover_found remote (list_to_set (ids registry)) registry [])
    as (found & -> & _ & Hiff).
  apply discover_known. intros i Hi.
  apply elem_of_list_to_set. unfold ids. rewrite map_app, map_rev.
  fold (ids registry). fold (ids (map (fun i => Entry i STATUS_PENDING) found)).
  rewrite ids_pending, elem_of_app.
  destruct (decide (i ∈ ids registry)) as [Hin|Hnin]; [now right|].
  left. rewrite list_elem_of_In, <- in_rev, <- list_elem_of_In.
  apply Hiff. split; [exact Hi|]. set_solver.
Qed.


(** ** The steps of the sync engine, one by one *)

Section Steps.

Variable E : Env.

Lemma bind_inr {A B} (c : M A) (k : A -> M B) (w w' : World) (b : B) :
  bind c k w = (w', inr b) ->
  exists w1 a, c w = (w1, inr a) /\ k a w1 = (w', inr b).
Proof.
  unfold bind. destruct (c w) as [w1 [e|a]]; [discriminate|]. eauto.
Qed.

Lemma with_files_same (w : World) : with_files w (w_files w) = w.
Proof. now destruct w. Qed.

Lemma check_fault_run (op : fs_op) (w : World) :
  check_fault E op w
  = (w, match os_fault E op with Some e => inl e | None => inr tt end).
Proof. unfold check_fault. now destruct (os_fault E op). Qed.

Lemma write_file_run (path : string) (data : list byte) (w : World) :
  write_file E path data w
  = match os_fault E (OpWrite path) with
    | Some e =>
        (match written E path with
         | Some k => with_files w (<[path := take k data]> (w_files w))
         | None => w
         end, inl e)
    | None => (with_files w (<[path := data]> (w_files w)), inr tt)
    end.
Proof.
  unfold write_file, bind. cbn [get_files].
  destruct (os_fault E (OpWrite path)); [|reflexivity].
  now destruct (written E path).
Qed.

(** A write that fails after the file was opened leaves part of the data
    there. *)
Lemma write_file_fails_partway (path : string) (data : list byte) (w : World)
    (e : exn) (k : nat) :
  os_fault E (OpWrite path) = Some e -> written E path = Some k ->
  write_file E path data w
  = (with_files w (<[path := take k data]> (w_files w)), inl e).
Proof. intros Hf Hk. rewrite write_file_run. now rewrite Hf, Hk. Qed.

Lemma rename_run (src dst : string) (w : World) :
  rename E src dst w
  = match os_fault E (OpRename src dst) with
    | Some e => (w, inl e)
    | None =>
        match w_files w !! src with
        | Some data => (with_files w (<[dst := data]> (delete src (w_files w))), inr tt)
        | None => (w, inl (OSError src))
        end
    end.
Proof.
  unfold rename, bind. rewrite check_fault_run.
  destruct (os_fault E (OpRename src dst)); [reflexivity|].
  cbn. now destruct (w_files w !! src).
Qed.

Lemma read_file_run (path : string) (w : World) :
  read_file E path w
  = match os_fault E (OpRead path) with
    | Some e => (w, inl e)
    | None =>
        match w_files w !! path with
        | Some data => (w, inr data)
        | None => (w, inl (OSError path))
        end
    end.
Proof.
  unfold read_file, bind. rewrite check_fault_run.
  destruct (os_fault E (OpRead path)); [reflexivity|].
  cbn. now destruct (w_files w !! path).
Qed.

Lemma fetch_url_run (url : string) (w : World) :
  fetch_url E url w = (with_log w (w_log w ++ [Fetch url]), urlopen E url).
Proof. reflexivity. Qed.

Lemma fetch_json_inr (url : string) (w w' : World) (j : json) :
  fetch_json E url w = (w', inr j) ->
  exists data, urlopen E url = inr data /\ json_loads E data = inr j
               /\ w' = with_log w (w_log w ++ [Fetch url]).
Proof.
  unfold fetch_json. intros H. apply bind_inr in H as (w1 & data & H1 & H2).
  rewrite fetch_url_run in H1. inversion H1; subst.
  unfold lift in H2. inversion H2. eauto.
Qed.

Lemma tmp_ne (s : string) : s +:+ ".tmp" <> s.
Proof.
  induction s as [|c s IH]; [discriminate|].
  simpl. intros H. inversion H. contradiction.
Qed.

(** The temporary file and the rename: what [save_registry] and
    [download_package_zip] share.  The destination either receives the
    whole data or keeps what it had; other files are not touched. *)
Lemma write_then_rename (temp dst : string) (data : list byte) (w : World) :
  temp <> dst ->
  let '(w', r) := (write_file E temp data;; rename E temp dst) w in
  w_registry w' = w_registry w /\ w_log w' = w_log w
  /\ (forall p, p <> dst -> p <> temp -> w_files w' !! p = w_files w !! p)
  /\ match r with
     | inr _ => w_files w' !! dst = Some data /\ w_files w' !! temp = None
     | inl _ => w_files w' !! dst = w_files w !! dst
     end.
Proof.
  intros Hne. unfold bind. rewrite write_file_run.
  destruct (os_fault E (OpWrite temp)).
  { destruct (written E temp); cbn; repeat split; intros;
      now rewrite ?lookup_insert_ne. }
  rewrite rename_run.
  destruct (os_fault E (OpRename temp dst)).
  { cbn. repeat split; intros; now rewrite ?lookup_insert_ne. }
  cbn [with_files w_files]. rewrite lookup_insert_eq. cbn.
  repeat split.
  - intros p Hd Ht. now rewrite lookup_insert_ne, lookup_delete_ne, lookup_insert_ne.
  - apply lookup_insert_eq.
  - rewrite lookup_insert_ne by congruence. apply lookup_delete_eq.
Qed.

End Steps.

Lemma save_registry_outcome (E : Env) (w : World) :
  let '(w', r) := save_registry E w in
  w_registry w' = w_registry w /\ w_log w' = w_log w
  /\ (forall p, p <> "registry.json" -> p <> "registry.json.tmp" ->
        w_files w' !! p = w_files w !! p)
  /\ match r with
     | inr _ =>
         w_files w' !! "registry.json"
         = Some (json_dumps E (Some 2) (json_of_registry (w_registry w)))
         /\ w_files w' !! "registry.json.tmp" = None
     | inl _ => w_files w' !! "registry.json" = w_files w !! "registry.json"
     end.
Proof.
  unfold save_registry. unfold bind at 1. cbn [get_registry].
  apply (write_then_rename E "registry.json.tmp" "registry.json"). discriminate.
Qed.

(** X9.  [save_registry] is atomic for [registry.json]: when it returns,
    the file holds the serialization of the whole registry and the
    temporary file is gone; when it raises, [registry.json] is what it was
    before, although a write that fails partway leaves part of the data
    behind: that part is in the temporary file.  Either way no other
    file, the registry in memory and the log are left alone. *)
Theorem save_registry_atomic (E : Env) (w : World) :
  let '(w', r) := save_registry E w in
  w_registry w' = w_registry w /\ w_log w' = w_log w
  /\ (forall p, p <> "registry.json" -> p <> "registry.json.tmp" ->
        w_files w' !! p = w_files w !! p)
  /\ match r with
     | inr _ =>
         w_files w' !! "registry.json"
         = Some (json_dumps E (Some 2) (json_of_registry (w_registry w)))
         /\ w_files w' !! "registry.json.tmp" = None
     | inl _ => w_files w' !! "registry.json" = w_files w !! "registry.json"
     end.
Proof. apply save_registry_outcome. Qed.

Section RegistryCodec.

Lemma entries_of_json_of_registry (registry : Registry) :
  entries_of_json
    (map (fun pkg => JObj [("id", JStr (id pkg)); ("status", JStr (status pkg))])
       registry)
  = inr registry.
Proof.
  induction registry as [|[i s] rest IH]; [reflexivity|].
  cbn [map entries_of_json]. rewrite IH. reflexivity.
Qed.

Lemma registry_of_json_of_registry (registry : Registry) :
  registry_of_json (json_of_registry registry) = inr registry.
Proof.
  unfold registry_of_json, json_of_registry. cbn [getitem assoc].
  replace (String.eqb "packages" "packages") with true by reflexivity.
  apply entries_of_json_of_registry.
Qed.

End RegistryCodec.

(** X10.  Save then load is the identity: after [save_registry] returned,
    [load_registry] on the files gives the registry that was saved,
    provided [json.load] reads back what [json.dump] wrote; and on a
    directory without [registry.json] it gives the empty registry. *)
Theorem save_then_load_registry (E : Env) (w w' : World) (fs : Files) :
  json_loads E (json_dumps E (Some 2) (json_of_registry (w_registry w)))
  = inr (json_of_registry (w_registry w)) ->
  save_registry E w = (w', inr tt) ->
  load_registry E (w_files w') = inr (w_registry w)
  /\ (fs !! "registry.json" = None -> load_registry E fs = inr []).
Proof.
  intros Hcodec Hsave. split.
  - pose proof (save_registry_outcome E w) as H. rewrite Hsave in H.
    destruct H as (_ & _ & _ & Hfile & _).
    unfold load_registry. rewrite Hfile, Hcodec.
    apply registry_of_json_of_registry.
  - intros Hnone. unfold load_registry. now rewrite Hnone.
Qed.

Lemma save_then_load_registry_witness :
  let w := {| w_files := ∅; w_registry := [Entry "a/b@1.0.0" STATUS_SUCCESS];
              w_log := [] |} in
  load_registry example_mirror (w_files (fst (save_registry example_mirror w)))
  = inr (w_registry w).
Proof.
  intros w.
  refine (proj1 (save_then_load_registry example_mirror w
                   (fst (save_registry example_mirror w)) ∅ _ _));
    vm_compute; reflexivity.
Defined.

Lemma download_outcome (E : Env) (zip_url : json)
    (dest_path : string) (w : World) :
  let '(w', r) := download_package_zip E zip_url dest_path w in
  w_registry w' = w_registry w
  /\ (forall p, p <> dest_path -> p <> dest_path +:+ ".tmp" ->
        w_files w' !! p = w_files w !! p)
  /\ match r with
     | inr _ =>
         exists url data,
           zip_url = JStr url /\ urlopen E url = inr data
           /\ w_files w' !! dest_path = Some data
           /\ w_files w' !! (dest_path +:+ ".tmp") = None
           /\ w_log w' = w_log w ++ [Fetch url]
     | inl _ => w_files w' !! dest_path = w_files w !! dest_path
     end.
Proof.
  unfold download_package_zip. unfold bind at 1, lift.
  destruct zip_url as [| | |url| |]; cbn [as_str]; try (now repeat split).
  unfold bind at 1. rewrite fetch_url_run.
  destruct (urlopen E url) as [e|data] eqn:Hu; [now repeat split|].
  pose proof (write_then_rename E (dest_path +:+ ".tmp") dest_path data
                (with_log w (w_log w ++ [Fetch url])) (tmp_ne dest_path)) as H.
  destruct ((write_file E (dest_path +:+ ".tmp") data;;
             rename E (dest_path +:+ ".tmp") dest_path)
              (with_log w (w_log w ++ [Fetch url]))) as [w' r].
  destruct H as (Hr & Hl & Hp & Hres). cbn in Hr, Hl, Hp, Hres.
  split; [exact Hr|]. split; [exact Hp|].
  destruct r as [e|[]]; [exact Hres|].
  exists url, data. destruct Hres. auto.
Qed.

(** X11.  [download_package_zip] never leaves a partial archive: when it
    returns, the destination holds exactly the bytes fetched from the URL
    and the temporary file is gone; when it raises (URL not text, fetch or
    file error, a write that stops partway included), the destination is
    what it was before.  No other file but the temporary one is
    touched. *)
Theorem download_package_zip_atomic (E : Env) (zip_url : json)
    (dest_path : string) (w : World) :
  let '(w', r) := download_package_zip E zip_url dest_path w in
  w_registry w' = w_registry w
  /\ (forall p, p <> dest_path -> p <> dest_path +:+ ".tmp" ->
        w_files w' !! p = w_files w !! p)
  /\ match r with
     | inr _ =>
         exists url data,
           zip_url = JStr url /\ urlopen E url = inr data
           /\ w_files w' !! dest_path = Some data
           /\ w_files w' !! (dest_path +:+ ".tmp") = None
           /\ w_log w' = w_log w ++ [Fetch url]
     | inl _ => w_files w' !! dest_path = w_files w !! dest_path
     end.
Proof. apply download_outcome. Qed.

(** ** A package that synced *)

Section Synced.

Variable E : Env.

Lemma leaf_ne (dir x y : string) : x <> y -> dir +:+ x <> dir +:+ y.
Proof. intros Hne H. apply Hne. now apply (inj (String.append dir)). Qed.

Lemma str_ne_false (text : string) (value : json) :
  str_ne text value = false -> value = JStr text.
Proof.
  destruct value; simpl; try discriminate.
  intros H. apply negb_false_iff, String.eqb_eq in H. now subst.
Qed.

(** What is on disk and in the log when the body of the [try] ran to the
    end with equal digests. *)
Lemma download_and_check_true (author name version : string) (w wd : World) :
  download_and_check E author name version w = (wd, inr true) ->
  let dir := package_dir author name version in
  exists endpoint_text endpoint zip_url manifest_text manifest zip,
    urlopen E (package_url author name version "endpoint.json") = inr endpoint_text
    /\ json_loads E endpoint_text = inr endpoint
    /\ getitem endpoint "url" = inr (JStr zip_url)
    /\ getitem endpoint "hash" = inr (JStr (compute_sha1 zip))
    /\ urlopen E (package_url author name version "elm.json") = inr manifest_text
    /\ json_loads E manifest_text = inr manifest
    /\ urlopen E zip_url = inr zip
    /\ w_files wd !! (dir +:+ "/package.zip") = Some zip
    /\ w_files wd !! (dir +:+ "/hash.json")
       = Some (json_dumps E None (JObj [("hash", JStr (compute_sha1 zip))]))
    /\ w_files wd !! (dir +:+ "/elm.json") = Some (json_dumps E (Some 4) manifest)
    /\ w_files wd !! (dir +:+ "/package.zip.tmp") = None
    /\ w_log wd
       = w_log w ++ [Fetch (package_url author name version "endpoint.json");
                     Fetch (package_url author name version "elm.json");
                     Fetch zip_url].
Proof.
  intros H dir. unfold download_and_check in H. fold dir in H.
  (* mkdir *)
  apply bind_inr in H as (w1 & [] & H1 & H).
  unfold mkdir in H1. rewrite check_fault_run in H1.
  destruct (os_fault E (OpMkdir dir)); inversion H1; subst w1. clear H1.
  (* endpoint.json *)
  apply bind_inr in H as (w1 & endpoint & H1 & H).
  apply fetch_json_inr in H1 as (endpoint_text & Hu1 & Hl1 & ->).
  apply bind_inr in H as (w1 & zip_url & H1 & H).
  unfold lift in H1. injection H1 as Hw Hurl. subst w1.
  apply bind_inr in H as (w1 & expected_hash & H1 & H).
  unfold lift in H1. injection H1 as Hw Hhash. subst w1.
  (* hash.json *)
  apply bind_inr in H as (w1 & [] & H1 & H).
  rewrite write_file_run in H1.
  destruct (os_fault E (OpWrite (dir +:+ "/hash.json"))); inversion H1; subst w1.
  clear H1.
  (* elm.json *)
  apply bind_inr in H as (w1 & manifest & H1 & H).
  apply fetch_json_inr in H1 as (manifest_text & Hu2 & Hl2 & ->).
  apply bind_inr in H as (w1 & [] & H1 & H).
  rewrite write_file_run in H1.
  destruct (os_fault E (OpWrite (dir +:+ "/elm.json"))); inversion H1; subst w1.
  clear H1.
  (* package.zip *)
  apply bind_inr in H as (w1 & [] & H1 & H).
  match type of H1 with
  | download_package_zip E ?u ?d ?w0 = _ =>
      pose proof (download_outcome E u d w0) as Hd; rewrite H1 in Hd
  end.
  destruct Hd as (_ & Hother & url & zip & -> & Hu3 & Hzip & Htmp & Hlog).
  cbn [with_files with_log w_files w_log] in Hother, Hlog.
  apply bind_inr in H as (w2 & zip' & H2 & H).
  rewrite read_file_run in H2.
  destruct (os_fault E (OpRead (dir +:+ "/package.zip"))); [discriminate|].
  rewrite Hzip in H2. inversion H2; subst w2 zip'. clear H2.
  unfold ret in H. injection H as Hw Hsame. subst wd.
  apply negb_true_iff, str_ne_false in Hsame. subst expected_hash.
  exists endpoint_text, endpoint, url, manifest_text, manifest, zip.
  do 7 (split; [assumption|]).
  split; [exact Hzip|].
  assert (Htmp_path : (dir +:+ "/package.zip") +:+ ".tmp" = dir +:+ "/package.zip.tmp")
    by (now rewrite app_assoc_s).
  rewrite Htmp_path in *.
  split; [|split; [|split; [exact Htmp|]]].
  - rewrite Hother by (apply leaf_ne; discriminate).
    rewrite lookup_insert_ne
      by (apply (leaf_ne dir "/elm.json" "/hash.json"); discriminate).
    apply lookup_insert_eq.
  - rewrite Hother by (apply leaf_ne; discriminate).
    apply lookup_insert_eq.
  - rewrite Hlog, <- !app_assoc. reflexivity.
Qed.

Lemma sync_package_true (package_id author name version : string) (w w' : World) :
  parse_package_id package_id = inr (author, name, version) ->
  sync_package E package_id w = (w', inr true) ->
  exists wd,
    download_and_check E author name version w = (wd, inr true)
    /\ w' = with_registry wd
              (set_package_status (w_registry w) package_id STATUS_SUCCESS).
Proof.
  intros Hp Hs.
  pose proof (sync_package_spec E package_id author name version w Hp) as H.
  destruct (download_and_check E author name version w) as [wd [e|[|]]];
    rewrite Hs in H; inversion H; subst. eauto.
Qed.

End Synced.

(** ** A package that did not sync *)

Section NotSynced.

Variable E : Env.

Lemma download_package_zip_no_fault (zip_url : json) (dest_path : string)
    (w w' : World) :
  download_package_zip E zip_url dest_path w = (w', inr tt) ->
  os_fault E (OpWrite (dest_path +:+ ".tmp")) = None
  /\ os_fault E (OpRename (dest_path +:+ ".tmp") dest_path) = None.
Proof.
  unfold download_package_zip. intros H.
  apply bind_inr in H as (w1 & url & _ & H).
  apply bind_inr in H as (w2 & data & _ & H).
  apply bind_inr in H as (w3 & [] & Hwrite & H).
  rewrite write_file_run in Hwrite.
  destruct (os_fault E (OpWrite (dest_path +:+ ".tmp"))); [discriminate|].
  split; [reflexivity|].
  rewrite rename_run in H.
  now destruct (os_fault E (OpRename (dest_path +:+ ".tmp") dest_path)).
Qed.

(** A download that ran to the end met no file-system error. *)
Lemma download_and_check_no_fault (author name version : string) (w wd : World)
    (same : bool) :
  download_and_check E author name version w = (wd, inr same) ->
  let dir := package_dir author name version in
  os_fault E (OpMkdir dir) = None
  /\ os_fault E (OpWrite (dir +:+ "/hash.json")) = None
  /\ os_fault E (OpWrite (dir +:+ "/elm.json")) = None
  /\ os_fault E (OpWrite (dir +:+ "/package.zip.tmp")) = None
  /\ os_fault E (OpRename (dir +:+ "/package.zip.tmp") (dir +:+ "/package.zip")) = None
  /\ os_fault E (OpRead (dir +:+ "/package.zip")) = None.
Proof.
  intros H dir. unfold download_and_check in H. fold dir in H.
  apply bind_inr in H as (w1 & [] & H1 & H).
  unfold mkdir in H1. rewrite check_fault_run in H1.
  destruct (os_fault E (OpMkdir dir)); [discriminate|]. clear H1.
  apply bind_inr in H as (w2 & endpoint & _ & H).
  apply bind_inr in H as (w3 & zip_url & _ & H).
  apply bind_inr in H as (w4 & expected_hash & _ & H).
  apply bind_inr in H as (w5 & [] & H1 & H).
  rewrite write_file_run in H1.
  destruct (os_fault E (OpWrite (dir +:+ "/hash.json"))); [discriminate|]. clear H1.
  apply bind_inr in H as (w6 & manifest & _ & H).
  apply bind_inr in H as (w7 & [] & H1 & H).
  rewrite write_file_run in H1.
  destruct (os_fault E (OpWrite (dir +:+ "/elm.json"))); [discriminate|]. clear H1.
  apply bind_inr in H as (w8 & [] & H1 & H).
  apply download_package_zip_no_fault in H1 as [Hwrite Hrename].
  rewrite (app_assoc_s dir "/package.zip" ".tmp") in Hwrite, Hrename.
  apply bind_inr in H as (w9 & zip & H1 & H).
  rewrite read_file_run in H1.
  destruct (os_fault E (OpRead (dir +:+ "/package.zip"))); [discriminate|].
  auto 10.
Qed.

(** None of the failures lets the body of the [try] end with equal
    digests. *)
Lemma download_failure_not_true (author name version : string) (w wd : World) :
  download_failure E author name version ->
  download_and_check E author name version w <> (wd, inr true).
Proof.
  intros Hfail Htrue.
  destruct (download_and_check_no_fault _ _ _ _ _ _ Htrue)
    as (Fmkdir & Fhash & Felm & Ftmp & Frename & Fread).
  destruct (download_and_check_true E _ _ _ _ _ Htrue)
    as (et & ep & zu & mt & mf & zip & Hu1 & Hl1 & Hurl & Hhash & Hu2 & Hl2 & Hu3 & _).
  destruct Hfail as [e F | e F | text e F1 F2 | text endpoint e F1 F2 [F3 | F3]
                    | e F | e F | text e F1 F2 | e F
                    | text endpoint zip_url e F1 F2 F3 F4
                    | text endpoint zip_url e F1 F2 F3 F4
                    | e F | e F | e F
                    | text endpoint expected_hash zip_url zip0 F1 F2 F3 F4 F5 F6];
    try congruence.
  - (* the URL is not text *)
    assert (text = et) by congruence. subst text.
    assert (endpoint = ep) by congruence. subst endpoint.
    assert (zip_url = JStr zu) by congruence. subst zip_url. discriminate F4.
  - (* the digests differ *)
    assert (text = et) by congruence. subst text.
    assert (endpoint = ep) by congruence. subst endpoint.
    assert (zip_url = zu) by congruence. subst zip_url.
    assert (zip0 = zip) by congruence. subst zip0.
    assert (expected_hash = JStr (compute_sha1 zip)) by congruence.
    subst expected_hash. cbn [str_ne] in F6.
    rewrite String.eqb_refl in F6. discriminate F6.
Qed.

(** So a failure of any kind makes [sync_package] return [False] with the
    package marked failed. *)
Lemma sync_package_fails (package_id author name version : string) (w : World) :
  parse_package_id package_id = inr (author, name, version) ->
  download_failure E author name version ->
  exists w1,
    sync_package E package_id w = (w1, inr false)
    /\ get_package_status (w_registry w1) package_id = Some STATUS_FAILED.
Proof.
  intros Hp Hfail.
  pose proof (sync_package_spec E package_id author name version w Hp) as Hs.
  pose proof (download_failure_not_true author name version w) as Hnot.
  destruct (download_and_check E author name version w) as [wd rd].
  assert (Hok : match rd with inr true => true | _ => false end = false).
  { destruct rd as [e|[|]]; try reflexivity.
    destruct (Hnot wd Hfail eq_refl). }
  rewrite Hok in Hs. eexists. split; [exact Hs|]. apply get_set_same.
Qed.

End NotSynced.



(** X12.  When [sync_package] returns [True], the package is marked
    success and its three files are on disk: the archive is exactly what
    the URL named by upstream's [endpoint.json] served, [hash.json]
    records the hash upstream announced, and that hash is the SHA-1 of the
    archive on disk; no temporary file is left, and exactly three requests
    were made, for the endpoint, the manifest and the archive. *)
Theorem sync_package_success (E : Env) (package_id author name version : string)
    (w w' : World) :
  parse_package_id package_id = inr (author, name, version) ->
  sync_package E package_id w = (w', inr true) ->
  let dir := package_dir author name version in
  get_package_status (w_registry w') package_id = Some STATUS_SUCCESS
  /\ exists endpoint_text endpoint zip_url manifest_text manifest zip,
       urlopen E (package_url author name version "endpoint.json") = inr endpoint_text
       /\ json_loads E endpoint_text = inr endpoint
       /\ getitem endpoint "url" = inr (JStr zip_url)
       /\ getitem endpoint "hash" = inr (JStr (compute_sha1 zip))
       /\ urlopen E (package_url author name version "elm.json") = inr manifest_text
       /\ json_loads E manifest_text = inr manifest
       /\ urlopen E zip_url = inr zip
       /\ w_files w' !! (dir +:+ "/package.zip") = Some zip
       /\ w_files w' !! (dir +:+ "/hash.json")
          = Some (json_dumps E None (JObj [("hash", JStr (compute_sha1 zip))]))
       /\ w_files w' !! (dir +:+ "/elm.json") = Some (json_dumps E (Some 4) manifest)
       /\ w_files w' !! (dir +:+ "/package.zip.tmp") = None
       /\ w_log w'
          = w_log w ++ [Fetch (package_url author name version "endpoint.json");
                        Fetch (package_url author name version "elm.json");
                        Fetch zip_url].
Proof.
  intros Hp Hs dir.
  destruct (sync_package_true E _ _ _ _ _ _ Hp Hs) as (wd & Hd & ->).
  split; [apply get_set_same|].
  exact (download_and_check_true E author name version w wd Hd).
Qed.

Lemma sync_package_success_witness :
  let w' := fst (sync_package example_mirror "a/b@1.0.0" empty_world) in
  get_package_status (w_registry w') "a/b@1.0.0" = Some STATUS_SUCCESS
  /\ exists endpoint_text endpoint zip_url manifest_text manifest zip,
       urlopen example_mirror (package_url "a" "b" "1.0.0" "endpoint.json")
       = inr endpoint_text
       /\ json_loads example_mirror endpoint_text = inr endpoint
       /\ getitem endpoint "url" = inr (JStr zip_url)
       /\ getitem endpoint "hash" = inr (JStr (compute_sha1 zip))
       /\ urlopen example_mirror (package_url "a" "b" "1.0.0" "elm.json")
          = inr manifest_text
       /\ json_loads example_mirror manifest_text = inr manifest
       /\ urlopen example_mirror zip_url = inr zip
       /\ w_files w' !! (package_dir "a" "b" "1.0.0" +:+ "/package.zip") = Some zip
       /\ w_files w' !! (package_dir "a" "b" "1.0.0" +:+ "/hash.json")
          = Some (json_dumps example_mirror None
                    (JObj [("hash", JStr (compute_sha1 zip))]))
       /\ w_files w' !! (package_dir "a" "b" "1.0.0" +:+ "/elm.json")
          = Some (json_dumps example_mirror (Some 4) manifest)
       /\ w_files w' !! (package_dir "a" "b" "1.0.0" +:+ "/package.zip.tmp") = None
       /\ w_log w'
          = w_log empty_world
            ++ [Fetch (package_url "a" "b" "1.0.0" "endpoint.json");
                Fetch (package_url "a" "b" "1.0.0" "elm.json");
                Fetch zip_url].
Proof.
  intros w'.
  refine (sync_package_success example_mirror "a/b@1.0.0" "a" "b" "1.0.0"
            empty_world w' _ _); vm_compute; reflexivity.
Defined.

(** X13.  What [sync_package] marks success passes verification: on the
    files it leaves, every check [run_verify] makes for that package
    succeeds, provided [json.load] reads back the digest record that
    [json.dump] wrote for the archive now on disk. *)
Theorem synced_package_verifies (E : Env) (package_id author name version : string)
    (w w' : World) :
  parse_package_id package_id = inr (author, name, version) ->
  sync_package E package_id w = (w', inr true) ->
  (forall zip,
      w_files w' !! (package_dir author name version +:+ "/package.zip") = Some zip ->
      json_loads E (json_dumps E None (JObj [("hash", JStr (compute_sha1 zip))]))
      = inr (JObj [("hash", JStr (compute_sha1 zip))])) ->
  verify_package E (w_files w') package_id = inr None.
Proof.
  intros Hp Hs Hcodec.
  destruct (sync_package_true E _ _ _ _ _ _ Hp Hs) as (wd & Hd & ->).
  destruct (download_and_check_true E author name version w wd Hd)
    as (et & ep & zu & mt & mf & zip & _ & _ & _ & _ & _ & _ & _
        & Hzip & Hhash & Helm & _).
  cbn [with_registry w_files] in Hcodec. specialize (Hcodec zip Hzip).
  unfold verify_package. rewrite Hp. cbn [with_registry w_files].
  rewrite Hzip, Hhash. unfold load_expected_hash. rewrite Hcodec.
  cbn [getitem assoc]. replace (String.eqb "hash" "hash") with true by reflexivity.
  cbn [str_ne]. rewrite String.eqb_refl. cbn [negb].
  unfold file_exists. rewrite Helm.
  now rewrite bool_decide_eq_true_2 by (eexists; reflexivity).
Qed.

Lemma synced_package_verifies_witness :
  verify_package example_mirror
    (w_files (fst (sync_package example_mirror "a/b@1.0.0" empty_world)))
    "a/b@1.0.0"
  = inr None.
Proof.
  refine (synced_package_verifies example_mirror "a/b@1.0.0" "a" "b" "1.0.0"
            empty_world (fst (sync_package example_mirror "a/b@1.0.0" empty_world))
            _ _ _).
  - vm_compute; reflexivity.
  - vm_compute; reflexivity.
  - intros zip Hzip. vm_compute in Hzip. injection Hzip as <-.
    vm_compute; reflexivity.
Defined.

(** ** What a passing verification means *)

Section Verified.

Variables (E : Env) (fs : Files).

Lemma verify_package_None_iff (package_id : string) :
  verify_package E fs package_id = inr None <-> package_intact E fs package_id.
Proof.
  unfold verify_package, package_intact. split.
  - destruct (parse_package_id package_id) as [e|[[author name] version]];
      [discriminate|].
    destruct (fs !! (package_dir author name version +:+ "/package.zip"))
      as [zip|] eqn:Hzip; [|discriminate].
    destruct (fs !! (package_dir author name version +:+ "/hash.json"))
      as [text|] eqn:Hhash; [|discriminate].
    destruct (load_expected_hash E text) as [e|expected] eqn:Hload.
    { destruct (is_JSONDecodeError_or_KeyError e); discriminate. }
    destruct (str_ne (compute_sha1 zip) expected) eqn:Hne; [discriminate|].
    destruct (file_exists fs (package_dir author name version +:+ "/elm.json"))
      eqn:Helm; [|discriminate].
    intros _. apply str_ne_false in Hne. subst expected.
    apply bool_decide_eq_true_1 in Helm.
    exists author, name, version, zip, text. auto.
  - intros (author & name & version & zip & text & -> & -> & -> & -> & Helm).
    cbn [str_ne]. rewrite String.eqb_refl. cbn [negb].
    unfold file_exists. now rewrite bool_decide_eq_true_2.
Qed.

(** A sweep that returns has read every package, and returns the errors
    it started with followed by those of the packages. *)
Lemma verify_sweep_inr (pkgs : list entry) :
  forall errors out,
    verify_sweep E fs pkgs errors = inr out ->
    out = errors ++ omap (package_error E fs) pkgs
    /\ Forall (fun pkg => exists o, verify_package E fs (id pkg) = inr o) pkgs.
Proof.
  induction pkgs as [|pkg rest IH]; intros errors out H; simpl in H.
  - inversion H. now rewrite app_nil_r.
  - cbn [omap list_omap]. unfold package_error at 1.
    destruct (verify_package E fs (id pkg)) as [e|[err|]] eqn:Hv; [discriminate| |].
    + apply IH in H as [-> Hall]. split; [now rewrite <- app_assoc|].
      constructor; eauto.
    + apply IH in H as [-> Hall]. split; [reflexivity|].
      constructor; eauto.
Qed.

Lemma omap_nil_inv {A B} (f : A -> option B) (l : list A) :
  omap f l = [] -> forall x, x ∈ l -> f x = None.
Proof.
  induction l as [|a l IH]; intros H x Hx; [inversion Hx|].
  cbn [omap list_omap] in H. destruct (f a) eqn:Hfa; [discriminate|].
  apply elem_of_cons in Hx as [->|Hx]; [exact Hfa | now apply IH].
Qed.

Lemma omap_nil_intro {A B} (f : A -> option B) (l : list A) :
  (forall x, x ∈ l -> f x = None) -> omap f l = [].
Proof.
  induction l as [|a l IH]; intros H; [reflexivity|].
  cbn [omap list_omap]. rewrite (H a) by apply list_elem_of_here.
  apply IH. intros x Hx. apply H. now apply list_elem_of_further.
Qed.

Lemma verify_registry_true_iff (registry : Registry) :
  verify_registry E fs registry = inr true
  <-> forall pkg, pkg ∈ registry -> status pkg = STATUS_SUCCESS ->
                  package_intact E fs (id pkg).
Proof.
  assert (Hmem : forall pkg, pkg ∈ success_packages registry
                             <-> status pkg = STATUS_SUCCESS /\ pkg ∈ registry)
    by (intros pkg; unfold success_packages; now rewrite list_elem_of_filter).
  split.
  - intros H pkg Hin Hst.
    assert (exists out, verify_sweep E fs (success_packages registry) [] = inr out
                        /\ out = []) as (out & Hsweep & ->).
    { unfold verify_registry in H. destruct registry as [|p rest]; [inversion Hin|].
      destruct (verify_sweep E fs (success_packages (p :: rest)) [])
        as [e|[|err errs]]; try discriminate. eauto. }
    apply verify_sweep_inr in Hsweep as [Hout Hall].
    assert (Hs : pkg ∈ success_packages registry) by (apply Hmem; auto).
    apply verify_package_None_iff.
    rewrite Forall_forall in Hall. destruct (Hall pkg Hs) as [o Ho].
    pose proof (omap_nil_inv _ _ (eq_sym Hout) pkg Hs) as Hnone.
    unfold package_error in Hnone. rewrite Ho in Hnone. now subst o.
  - intros H.
    assert (Hall : forall pkg, pkg ∈ success_packages registry ->
                               verify_package E fs (id pkg) = inr None).
    { intros pkg Hs. apply Hmem in Hs as [Hst Hin].
      apply verify_package_None_iff. now apply H. }
    assert (Hsweep : verify_sweep E fs (success_packages registry) [] = inr []).
    { rewrite verify_sweep_collects.
      - rewrite omap_nil_intro; [reflexivity|].
        intros pkg Hs. unfold package_error. now rewrite Hall.
      - apply Forall_forall. intros pkg Hs. eauto. }
    unfold verify_registry. destruct registry; [reflexivity|]. now rewrite Hsweep.
Qed.

End Verified.

(** X14.  [run_verify] returns [True] exactly when every registry entry
    with status success has its archive on disk, a [hash.json] whose hash
    is the SHA-1 of that archive, and its [elm.json]; entries with another
    status are not looked at. *)
Theorem run_verify_true_iff (E : Env) (fs : Files) (registry : Registry) :
  load_registry E fs = inr registry ->
  run_verify E fs = inr true
  <-> forall pkg, pkg ∈ registry -> status pkg = STATUS_SUCCESS ->
                  package_intact E fs (id pkg).
Proof.
  intros Hload. unfold run_verify. rewrite Hload.
  apply verify_registry_true_iff.
Qed.

Lemma run_verify_true_iff_witness :
  let good : Files := {[ "registry.json" := example_registry_text;
                         "packages/a/b/1.0.0/package.zip" := [];
                         "packages/a/b/1.0.0/hash.json" := example_hash_text;
                         "packages/a/b/1.0.0/elm.json" := [] ]} in
  run_verify example_env good = inr true
  <-> forall pkg, pkg ∈ [Entry "a/b@1.0.0" STATUS_SUCCESS] ->
                  status pkg = STATUS_SUCCESS ->
                  package_intact example_env good (id pkg).
Proof.
  intros good.
  apply (run_verify_true_iff example_env good [Entry "a/b@1.0.0" STATUS_SUCCESS]).
  vm_compute. reflexivity.
Defined.

(** ** The router as a whole *)

Section Router.

Lemma length_app_s (a b : string) :
  String.length (a +:+ b) = String.length a + String.length b.
Proof. induction a as [|c a IH]; simpl; [reflexivity | now rewrite IH]. Qed.

Lemma app_inj_tail_s (a b x y : string) :
  String.length x = String.length y -> a +:+ x = b +:+ y -> x = y.
Proof.
  revert b. induction a as [|c a IH]; intros [|d b] Hlen H; simpl in H.
  - exact H.
  - exfalso. apply (f_equal String.length) in H. simpl in H.
    rewrite length_app_s in H. lia.
  - exfalso. apply (f_equal String.length) in H. simpl in H.
    rewrite length_app_s in H. lia.
  - injection H as _ H. now apply (IH b).
Qed.

Lemma endswith_inv (suf s : string) :
  endswith suf s = true -> exists x, s = x +:+ suf.
Proof.
  induction s as [|c r IH]; simpl; intros H; apply orb_true_iff in H as [H|H].
  - apply String.eqb_eq in H. subst. now exists EmptyString.
  - discriminate.
  - apply String.eqb_eq in H. subst. now exists EmptyString.
  - destruct (IH H) as [x ->]. now exists (String c x).
Qed.

Lemma routes_disjoint (path : string) :
  startswith "/all-packages/since/" path = true ->
  startswith "/packages/" path = true -> False.
Proof.
  unfold startswith. intros H1 H2.
  destruct path as [|a [|b p]]; cbn [String.prefix] in H1, H2; try discriminate.
  - destruct (ascii_dec "/" a); discriminate.
  - destruct (ascii_dec "/" a); [|discriminate].
    destruct (ascii_dec "a" b) as [<-|]; [|discriminate].
    destruct (ascii_dec "p" "a") as [Hpa|]; [discriminate Hpa | discriminate H2].
Qed.

Lemma strip_prefix_inv (p s r : string) :
  strip_prefix p s = Some r -> s = p +:+ r.
Proof.
  revert s. induction p as [|a p IH]; intros s H.
  - destruct s; simpl in H; injection H as <-; reflexivity.
  - destruct s as [|b s]; simpl in H; [discriminate|].
    destruct (Ascii.eqb a b) eqn:Hab; [|discriminate].
    apply Ascii.eqb_eq in Hab. subst b. simpl. now rewrite (IH s H).
Qed.

Lemma contains_dots_has_dot (s : string) :
  contains ".." s = true -> has_char "." s = true.
Proof.
  induction s as [|c s IH]; [discriminate|].
  cbn [contains has_char String.prefix]. intros H.
  apply orb_true_iff in H as [H|H].
  - destruct (ascii_dec "." c) as [<-|]; [reflexivity | discriminate].
  - rewrite (IH H). apply orb_true_r.
Qed.

Lemma has_char_chomp (c : ascii) (s : string) :
  c <> newline -> has_char c (chomp s) = has_char c s.
Proof.
  intros Hc. induction s as [|a s IH]; [reflexivity|].
  destruct s as [|b s].
  - cbn [chomp]. destruct (Ascii.eqb a newline) eqn:Ha; [|reflexivity].
    apply Ascii.eqb_eq in Ha. subst a. cbn [has_char].
    destruct (Ascii.eqb newline c) eqn:Hn; [|reflexivity].
    apply Ascii.eqb_eq in Hn. now subst.
  - change (chomp (String a (String b s))) with (String a (chomp (String b s))).
    cbn [has_char]. cbn [has_char] in IH. now rewrite IH.
Qed.

Lemma is_digits_no_dot (s : string) :
  has_char "." s = true -> is_digits s = false.
Proof.
  unfold is_digits. induction s as [|a s IH]; [discriminate|].
  cbn [has_char nonempty NilEmpty.uint_of_string andb]. intros H.
  apply orb_true_iff in H as [H|H].
  - apply Ascii.eqb_eq in H. subst a.
    now destruct (NilEmpty.uint_of_string s).
  - specialize (IH H). destruct s as [|b s]; [discriminate|].
    cbn [nonempty andb] in IH.
    destruct (NilEmpty.uint_of_string (String b s)); [discriminate|reflexivity].
Qed.

(** A [since] path with [..] in it does not match. *)
Lemma match_since_dots (path : string) :
  contains ".." path = true -> match_since path = None.
Proof.
  intros Hdots. unfold match_since.
  destruct (strip_prefix "/all-packages/since/" path) as [rest|] eqn:Hp;
    [|reflexivity].
  apply strip_prefix_inv in Hp. subst path.
  apply contains_dots_has_dot in Hdots.
  assert (Hrest : has_char "." rest = true) by exact Hdots.
  rewrite <- (has_char_chomp "." rest) in Hrest by discriminate.
  now rewrite (is_digits_no_dot _ Hrest).
Qed.

End Router.



(** The [endpoint.json] route makes no test for [..]: its three groups
    may be [..], and the answer comes from the [hash.json] the path so
    built names. *)
Example endpoint_json_through_dotdot :
  call example_env {[ "packages/../../x/hash.json" := example_hash_text ]}
    (App "http://mirror" []) "GET" "/packages/../../x/endpoint.json"
  = inr (ok_response "application/json"
           (JsonBody (JObj [("url", JStr "http://mirror/packages/../../x/package.zip");
                            ("hash", JStr example_digest)]))).
Proof. vm_compute. reflexivity. Qed.

(** X16.  Outside the [endpoint.json] route a path that contains [..]
    gets nothing but an error: whatever the method, the registry and the
    files, the answer is 400, 404 or 405, and on the static route ([GET]
    below [/packages/]) it is 400 "Invalid path", before the file system
    is looked at. *)
Theorem dotdot_path_is_refused (E : Env) (fs : Files) (self : ElmMirrorApp)
    (method path : string) :
  contains ".." path = true ->
  endswith "/endpoint.json" path = false ->
  exists status_code message,
    call E fs self method path = inr (error_response status_code message)
    /\ (status_code = 400 \/ status_code = 404 \/ status_code = 405)
    /\ (method = "GET" -> startswith "/packages/" path = true ->
        status_code = 400 /\ message = "Invalid path").
Proof.
  intros Hdots Hend. unfold call.
  destruct (String.eqb method "GET") eqn:Hm; cbn [negb].
  2:{ eexists _, _. split; [reflexivity|]. split; [auto|].
      intros ->. discriminate Hm. }
  destruct (String.eqb path "/all-packages") eqn:Hp.
  { apply String.eqb_eq in Hp. subst path. discriminate Hdots. }
  destruct (startswith "/all-packages/since/" path) eqn:Hsince.
  { unfold serve_all_packages_since. rewrite (match_since_dots path Hdots).
    eexists _, _. split; [reflexivity|]. split; [auto|].
    intros _ Hs. destruct (routes_disjoint path Hsince Hs). }
  rewrite Hend, andb_false_r.
  destruct (startswith "/packages/" path) eqn:Hs.
  - unfold serve_static_file. rewrite Hdots.
    eexists _, _. split; [reflexivity|]. split; [auto|]. auto.
  - eexists _, _. split; [reflexivity|]. split; [auto|]. discriminate.
Qed.

Lemma dotdot_path_is_refused_witness :
  exists status_code message,
    call example_env {[ "registry.json" := example_registry_text ]} (App "" [])
      "GET" "/packages/../registry.json"
    = inr (error_response status_code message)
    /\ (status_code = 400 \/ status_code = 404 \/ status_code = 405)
    /\ ("GET" = "GET" -> startswith "/packages/" "/packages/../registry.json" = true ->
        status_code = 400 /\ message = "Invalid path").
Proof.
  apply (dotdot_path_is_refused example_env
           {[ "registry.json" := example_registry_text ]} (App "" [])
           "GET" "/packages/../registry.json");
    vm_compute; reflexivity.
Defined.

(** X17.  Only [package.zip] and [endpoint.json] are held back by the
    registry: the [elm.json] and the [hash.json] of a package that are on
    disk are served as they are, as [application/json], whatever status
    the registry gives the package (pending, failed and ignored
    included). *)
Theorem package_json_files_not_gated (E : Env) (fs : Files) (self : ElmMirrorApp)
    (author name version leaf : string) (data : list byte) :
  contains ".." (package_path author name version leaf) = false ->
  leaf = "elm.json" \/ leaf = "hash.json" ->
  fs !! (package_dir author name version +:+ "/" +:+ leaf) = Some data ->
  call E fs self "GET" (package_path author name version leaf)
  = inr (ok_response "application/json" (RawBody data)).
Proof.
  intros Hdots Hleaf Hfile.
  assert (Hend : endswith "/endpoint.json" (package_path author name version leaf)
                 = false).
  { destruct (endswith "/endpoint.json" (package_path author name version leaf))
      eqn:Hend; [|reflexivity].
    apply endswith_inv in Hend as [x Hx].
    rewrite package_path_leaf in Hx.
    destruct Hleaf as [-> | ->].
    - assert (Hx' : ("/packages/" +:+ author +:+ "/" +:+ name +:+ "/" +:+ version)
                    +:+ "/elm.json" = (x +:+ "/endp") +:+ "oint.json")
        by (rewrite (app_assoc_s x "/endp" "oint.json"); exact Hx).
      apply app_inj_tail_s in Hx'; [discriminate | reflexivity].
    - assert (Hx' : ("/packages/" +:+ author +:+ "/" +:+ name +:+ "/" +:+ version)
                    +:+ "/hash.json" = (x +:+ "/end") +:+ "point.json")
        by (rewrite (app_assoc_s x "/end" "point.json"); exact Hx).
      apply app_inj_tail_s in Hx'; [discriminate | reflexivity]. }
  assert (Hzip : endswith "/package.zip" (package_path author name version leaf)
                 = false).
  { destruct (endswith "/package.zip" (package_path author name version leaf))
      eqn:Hzip; [|reflexivity].
    apply endswith_last_char in Hzip; [|reflexivity].
    rewrite package_path_last_char in Hzip.
    destruct Hleaf as [-> | ->]; discriminate. }
  assert (Hjson : endswith ".json" (package_path author name version leaf) = true).
  { rewrite package_path_leaf.
    destruct Hleaf as [-> | ->]; apply endswith_app; reflexivity. }
  pose proof (call_packages E fs self
                (author +:+ "/" +:+ name +:+ "/" +:+ version +:+ "/" +:+ leaf))
    as Hcall.
  fold (package_path author name version leaf) in Hcall.
  rewrite Hcall, Hend. unfold serve_static_file.
  rewrite Hdots, lstrip_package_path, Hfile, Hzip, Hjson. reflexivity.
Qed.

Lemma package_json_files_not_gated_witness :
  call example_env {[ "packages/a/b/1.0.0/elm.json" := [] ]}
    (App "" [Entry "a/b@1.0.0" STATUS_PENDING]) "GET"
    (package_path "a" "b" "1.0.0" "elm.json")
  = inr (ok_response "application/json" (RawBody [])).
Proof.
  apply (package_json_files_not_gated example_env
           {[ "packages/a/b/1.0.0/elm.json" := [] ]}
           (App "" [Entry "a/b@1.0.0" STATUS_PENDING]) "a" "b" "1.0.0" "elm.json" []);
    try (vm_compute; reflexivity).
  left. reflexivity.
Defined.

Section WellFormed.

Lemma error_response_well_formed (status_code : nat) (message : string) :
  status_code = 400 \/ status_code = 404 \/ status_code = 405 \/ status_code = 503 ->
  well_formed (error_response status_code message).
Proof.
  intros [-> | [-> | [-> | ->]]]; (split; [cbn; tauto|]);
    intros _; (split; [reflexivity|]); now exists message.
Qed.

Lemma ok_response_well_formed (ctype : string) (b : body) :
  well_formed (ok_response ctype b).
Proof. split; [cbn; tauto|]. intros H. now destruct H. Qed.

End WellFormed.

Ltac response_well_formed :=
  cbv beta iota zeta;
  first [ exact I
        | apply ok_response_well_formed
        | apply error_response_well_formed; tauto ].

(** X18.  Whatever the request, an answer of the server has one of the
    status lines 200 OK, 400 Bad Request, 404 Not Found, 405 Method Not
    Allowed and 503 Service Unavailable (the "Error" text of
    [_error_response] is never used), and an answer other than 200 is a
    JSON object with the single field [error]. *)
Theorem call_responses_well_formed (E : Env) (fs : Files) (self : ElmMirrorApp)
    (method path : string) :
  match call E fs self method path with
  | inr r => well_formed r
  | inl _ => True
  end.
Proof.
  unfold call.
  destruct (negb (String.eqb method "GET")); [response_well_formed|].
  destruct (String.eqb path "/all-packages").
  { unfold serve_all_packages. destruct (fs !! _); response_well_formed. }
  destruct (startswith "/all-packages/since/" path).
  { unfold serve_all_packages_since.
    destruct (match_since path) as [group|]; [|response_well_formed].
    destruct (int_of_digits group); response_well_formed. }
  destruct (startswith "/packages/" path && endswith "/endpoint.json" path).
  { unfold serve_endpoint_json.
    destruct (match_package_path "endpoint.json" path) as [[[author name] version]|];
      [|response_well_formed].
    repeat (case_bool_decide; [response_well_formed|]).
    destruct (fs !! _) as [text|]; [|response_well_formed].
    destruct (json_loads E text) as [e|hash_data]; [response_well_formed|].
    destruct (getitem hash_data "hash"); response_well_formed. }
  destruct (startswith "/packages/" path); [|response_well_formed].
  unfold serve_static_file.
  destruct (contains ".." path); [response_well_formed|].
  destruct (fs !! _) as [data|]; [|response_well_formed].
  destruct (endswith "/package.zip" path); [|response_well_formed].
  destruct (match_package_path "package.zip" path) as [[[author name] version]|];
    [|response_well_formed].
  repeat (case_bool_decide; [response_well_formed|]). response_well_formed.
Qed.

(** ** Sync: the files it handles *)

Create HintDb writes discriminated.

Section Footprint.

Variable E : Env.
Variable P : string -> Prop.

Lemma writes_ret {A} (a : A) : writes_in P (ret a).
Proof. intros w p _. reflexivity. Qed.

Lemma writes_raise {A} (e : exn) : writes_in P (@raise A e).
Proof. intros w p _. reflexivity. Qed.

Lemma writes_lift {A} (r : exn + A) : writes_in P (lift r).
Proof. intros w p _. reflexivity. Qed.

Lemma writes_get_files : writes_in P get_files.
Proof. intros w p _. reflexivity. Qed.

Lemma writes_get_registry : writes_in P get_registry.
Proof. intros w p _. reflexivity. Qed.

Lemma writes_put_registry (r : Registry) : writes_in P (put_registry r).
Proof. intros w p _. reflexivity. Qed.

Lemma writes_emit (ev : event) : writes_in P (emit ev).
Proof. intros w p _. reflexivity. Qed.

Lemma writes_check_fault (op : fs_op) : writes_in P (check_fault E op).
Proof.
  unfold check_fault. destruct (os_fault E op); [apply writes_raise | apply writes_ret].
Qed.

Lemma writes_bind {A B} (c : M A) (k : A -> M B) :
  writes_in P c -> (forall a, writes_in P (k a)) -> writes_in P (bind c k).
Proof.
  intros Hc Hk w p Hp. unfold bind. specialize (Hc w p Hp).
  destruct (c w) as [w1 [e|a]]; simpl in *; [exact Hc|].
  now rewrite (Hk a w1 p Hp).
Qed.

Lemma writes_try_except {A} (body : M A) (handler : exn -> M A) :
  writes_in P body -> (forall e, writes_in P (handler e)) ->
  writes_in P (try_except body handler).
Proof.
  intros Hb Hh w p Hp. unfold try_except. specialize (Hb w p Hp).
  destruct (body w) as [w1 [e|a]]; simpl in *; [|exact Hb].
  now rewrite (Hh e w1 p Hp).
Qed.

Lemma writes_put_files_insert (path : string) (data : list byte) :
  P path ->
  writes_in P (do fs <- get_files; put_files (<[path := data]> fs)).
Proof.
  intros HP w p Hp. cbn. apply lookup_insert_ne. intros ->. contradiction.
Qed.

Lemma writes_write_file (path : string) (data : list byte) :
  P path -> writes_in P (write_file E path data).
Proof.
  intros HP w p Hp. rewrite write_file_run.
  assert (Hne : path <> p) by (intros ->; contradiction).
  destruct (os_fault E (OpWrite path)); [destruct (written E path)|]; cbn;
    now rewrite ?lookup_insert_ne by exact Hne.
Qed.

Lemma writes_rename (src dst : string) :
  P src -> P dst -> writes_in P (rename E src dst).
Proof.
  intros Hsrc Hdst w p Hp. rewrite rename_run.
  destruct (os_fault E (OpRename src dst)); [reflexivity|].
  destruct (w_files w !! src); [|reflexivity]. cbn.
  rewrite lookup_insert_ne by (intros ->; contradiction).
  apply lookup_delete_ne. intros ->. contradiction.
Qed.

Lemma writes_read_file (path : string) : writes_in P (read_file E path).
Proof.
  intros w p _. rewrite read_file_run.
  destruct (os_fault E (OpRead path)); [reflexivity|].
  now destruct (w_files w !! path).
Qed.

Lemma writes_fetch_url (url : string) : writes_in P (fetch_url E url).
Proof. intros w p _. reflexivity. Qed.

Lemma writes_fetch_json (url : string) : writes_in P (fetch_json E url).
Proof.
  unfold fetch_json. apply writes_bind; [apply writes_fetch_url|].
  intros data. apply writes_lift.
Qed.

Lemma writes_set_status (package_id st : string) :
  writes_in P (set_status package_id st).
Proof. intros w p _. reflexivity. Qed.

Hint Resolve writes_ret writes_raise writes_lift writes_get_files
  writes_get_registry writes_put_registry writes_emit writes_check_fault
  writes_write_file writes_rename writes_read_file writes_fetch_url
  writes_fetch_json writes_set_status : writes.

Ltac writes_step :=
  repeat first
    [ progress auto with writes
    | apply writes_bind; [| intros ? ]
    | match goal with
      | |- writes_in _ (match ?x with _ => _ end) => destruct x
      end ].

Lemma writes_mkdir (path : string) : writes_in P (mkdir E path).
Proof. apply writes_check_fault. Qed.

Lemma writes_save_registry :
  P "registry.json" -> P "registry.json.tmp" -> writes_in P (save_registry E).
Proof. intros H1 H2. unfold save_registry. writes_step. Qed.

Lemma writes_download_package_zip (zip_url : json) (dest_path : string) :
  P dest_path -> P (dest_path +:+ ".tmp") ->
  writes_in P (download_package_zip E zip_url dest_path).
Proof. intros H1 H2. unfold download_package_zip. writes_step. Qed.

Lemma writes_download_and_check (author name version : string) :
  (forall p, package_file author name version p -> P p) ->
  writes_in P (download_and_check E author name version).
Proof.
  intros HP.
  assert (H1 : P (package_dir author name version +:+ "/hash.json"))
    by (apply HP; unfold package_file; auto).
  assert (H2 : P (package_dir author name version +:+ "/elm.json"))
    by (apply HP; unfold package_file; auto).
  assert (H3 : P (package_dir author name version +:+ "/package.zip"))
    by (apply HP; unfold package_file; auto).
  assert (H4 : P ((package_dir author name version +:+ "/package.zip") +:+ ".tmp"))
    by (apply HP; unfold package_file; rewrite app_assoc_s; auto 6).
  unfold download_and_check, fetch_package_endpoint, fetch_package_elm_json.
  pose proof writes_mkdir. pose proof writes_download_package_zip.
  writes_step.
Qed.

Lemma writes_sync_package (package_id : string) :
  (forall author name version p,
      parse_package_id package_id = inr (author, name, version) ->
      package_file author name version p -> P p) ->
  writes_in P (sync_package E package_id).
Proof.
  intros HP. unfold sync_package.
  destruct (parse_package_id package_id) as [e|[[author name] version]];
    [apply writes_raise|].
  pose proof (writes_download_and_check author name version
                (fun p => HP author name version p eq_refl)).
  apply writes_try_except; [|intros e]; writes_step.
Qed.

End Footprint.

Section FootprintRun.

Variable E : Env.

Lemma writes_weaken {A} (P Q : string -> Prop) (c : M A) :
  (forall p, P p -> Q p) -> writes_in P c -> writes_in Q c.
Proof. intros HPQ Hc w p Hq. apply Hc. intros HP. apply Hq, HPQ, HP. Qed.

Lemma package_file_under (author name version p : string) :
  package_file author name version p -> startswith "packages/" p = true.
Proof.
  unfold package_file, package_dir, startswith.
  intros [-> | [-> | [-> | ->]]]; rewrite !app_assoc_s; apply prefix_app.
Qed.

Lemma writes_sync_loop (packages_to_sync : list string) :
  forall (i : nat) (counts : nat * nat),
    writes_in worklist_file (sync_loop E i packages_to_sync counts).
Proof.
  induction packages_to_sync as [|pkg_id rest IH]; intros i counts;
    cbn [sync_loop]; [apply writes_ret|].
  apply writes_bind; [apply writes_emit|]. intros _.
  apply writes_bind.
  { apply writes_sync_package. intros author name version p _ Hp.
    right. right. exact (package_file_under _ _ _ _ Hp). }
  intros ok. apply writes_bind; [|intros _; apply IH].
  destruct (i mod 10 =? 0)%nat; [|apply writes_ret].
  apply writes_save_registry; unfold worklist_file; auto.
Qed.

Lemma writes_filter_loop (P : string -> Prop) (pl : gset string)
    (packages_to_sync : list string) :
  forall filtered, writes_in P (filter_loop pl packages_to_sync filtered).
Proof.
  induction packages_to_sync as [|pkg_id rest IH]; intros filtered;
    cbn [filter_loop]; [apply writes_ret|].
  apply writes_bind; [apply writes_lift|]. intros [|]; [apply IH|].
  apply writes_bind; [apply writes_set_status|]. intros _. apply IH.
Qed.

Lemma writes_process_worklist (package_list : option (gset string))
    (packages_to_sync : list string) :
  writes_in worklist_file (process_worklist E package_list packages_to_sync).
Proof.
  unfold process_worklist. apply writes_bind.
  { destruct package_list; [apply writes_filter_loop | apply writes_ret]. }
  intros filtered. apply writes_bind; [apply writes_sync_loop|].
  intros counts. apply writes_bind; [|intros _; apply writes_ret].
  apply writes_save_registry; unfold worklist_file; auto.
Qed.

Lemma writes_run_sync (package_list : option (gset string)) :
  writes_in sync_file (run_sync E package_list).
Proof.
  unfold run_sync.
  apply writes_bind; [apply writes_check_fault|]. intros _.
  apply writes_bind; [apply writes_get_files|]. intros fs.
  apply writes_bind; [apply writes_lift|]. intros registry.
  apply writes_bind; [apply writes_put_registry|]. intros _.
  apply writes_bind.
  { unfold fetch_all_packages_since.
    apply writes_bind; [apply writes_fetch_json|].
    intros j. destruct j; try apply writes_raise. apply writes_lift. }
  intros remote_packages.
  apply writes_bind; [apply writes_fetch_json|]. intros all_packages.
  apply writes_bind; [apply writes_write_file; now left|]. intros _.
  destruct (discover remote_packages _ registry []) as [registry1 new_packages].
  apply writes_bind; [apply writes_put_registry|]. intros _.
  apply (writes_weaken worklist_file); [now right|].
  apply writes_process_worklist.
Qed.

(** A run that returns has just saved its registry. *)
Lemma process_worklist_saved (package_list : option (gset string))
    (packages_to_sync : list string) (w w' : World) (counts : nat * nat) :
  process_worklist E package_list packages_to_sync w = (w', inr counts) ->
  w_files w' !! "registry.json"
  = Some (json_dumps E (Some 2) (json_of_registry (w_registry w')))
  /\ w_files w' !! "registry.json.tmp" = None.
Proof.
  unfold process_worklist. intros H.
  apply bind_inr in H as (w1 & filtered & _ & H).
  apply bind_inr in H as (w2 & counts' & _ & H).
  apply bind_inr in H as (w3 & [] & Hsave & H).
  unfold ret in H. injection H as <- _.
  pose proof (save_registry_outcome E w2) as Hout. rewrite Hsave in Hout.
  destruct Hout as (Hreg & _ & _ & Hfile & Htmp). now rewrite Hreg.
Qed.

End FootprintRun.

Section Canonical.

Lemma components_leaf (x : string) :
  has_char "/" x = false -> components x = [x].
Proof.
  induction x as [|c x IH]; [reflexivity|].
  cbn [has_char components]. intros H. apply orb_false_iff in H as [Hc Hx].
  now rewrite Hc, (IH Hx).
Qed.

Lemma components_app (x r : string) :
  has_char "/" x = false -> components (x +:+ "/" +:+ r) = x :: components r.
Proof.
  induction x as [|c x IH]; [reflexivity|].
  cbn [has_char]. intros H. apply orb_false_iff in H as [Hc Hx].
  change (components (String c (x +:+ "/" +:+ r)) = String c x :: components r).
  cbn [components]. now rewrite Hc, (IH Hx).
Qed.

Lemma plain_no_slash (s : string) : plain s = true -> has_char "/" s = false.
Proof.
  unfold plain, segment. intros H.
  apply andb_true_iff in H as [H _]. apply andb_true_iff in H as [H _].
  apply andb_true_iff in H as [_ H]. now apply negb_true_iff.
Qed.

(** The files of a package with plain components are canonical paths:
    [packages], the three components and the name of the file. *)
Lemma package_file_canonical (author name version q : string) :
  plain author = true -> plain name = true -> plain version = true ->
  package_file author name version q -> canonical q = true.
Proof.
  intros Ha Hn Hv Hq.
  assert (Hleaf : forall leaf, has_char "/" leaf = false -> plain leaf = true ->
            canonical (package_dir author name version +:+ "/" +:+ leaf) = true).
  { intros leaf Hl Hp. unfold canonical, package_dir.
    change "packages/" with ("packages" +:+ "/"). rewrite !app_assoc_s.
    rewrite (components_app "packages") by reflexivity.
    rewrite (components_app author) by now apply plain_no_slash.
    rewrite (components_app name) by now apply plain_no_slash.
    rewrite (components_app version) by now apply plain_no_slash.
    rewrite (components_leaf leaf) by exact Hl.
    cbn [forallb]. now rewrite Ha, Hn, Hv, Hp. }
  destruct Hq as [-> | [-> | [-> | ->]]].
  - now apply (Hleaf "hash.json").
  - now apply (Hleaf "elm.json").
  - now apply (Hleaf "package.zip").
  - now apply (Hleaf "package.zip.tmp").
Qed.

End Canonical.

(** X19.  [sync_package] handles four files and no other: [hash.json],
    [elm.json], [package.zip] and [package.zip.tmp] in the directory of
    the package.  Whether it returns [True] or [False], every other file
    of the mirror is what it was.  This is stated for an identifier whose
    three groups are plain components, which makes the four files
    canonical paths, and for canonical paths, where the text of a path
    tells the file: an identifier such as [x/../../y@z] parses and takes
    the writes elsewhere. *)
Theorem sync_package_footprint (E : Env) (package_id author name version : string)
    (w : World) :
  parse_package_id package_id = inr (author, name, version) ->
  plain author = true -> plain name = true -> plain version = true ->
  (forall q, package_file author name version q -> canonical q = true)
  /\ (forall p, canonical p = true -> ~ package_file author name version p ->
        w_files (fst (sync_package E package_id w)) !! p = w_files w !! p).
Proof.
  intros Hparse Ha Hn Hv. split.
  - intros q. now apply package_file_canonical.
  - intros p _ Hp.
    apply (writes_sync_package E (package_file author name version)); [|exact Hp].
    intros author' name' version' p' Hparse' Hp'.
    rewrite Hparse in Hparse'. now injection Hparse' as -> -> ->.
Qed.

Lemma sync_package_footprint_witness :
  let w := {| w_files := {[ "packages/a/b/1.0.0/README.md" := [x68; x69] ]};
              w_registry := []; w_log := [] |} in
  canonical (package_dir "a" "b" "1.0.0" +:+ "/package.zip") = true
  /\ w_files (fst (sync_package example_mirror "a/b@1.0.0" w))
       !! "packages/a/b/1.0.0/README.md"
     = w_files w !! "packages/a/b/1.0.0/README.md".
Proof.
  intros w.
  destruct (sync_package_footprint example_mirror "a/b@1.0.0" "a" "b" "1.0.0" w)
    as [Hcanon Hkeep]; try (vm_compute; reflexivity).
  split.
  - apply Hcanon. unfold package_file. auto.
  - apply Hkeep; [vm_compute; reflexivity|].
    intros [H | [H | [H | H]]]; vm_compute in H; discriminate H.
Defined.

(** X20.  A run of [run_sync] handles only [registry.json] with its
    temporary file, [all-packages], and files below [packages/]: every
    other file of the mirror directory is left as it was, whether the run
    returns or raises.  This is stated for a run in which every
    identifier attempted has plain components, and for canonical paths. *)
Theorem run_sync_footprint (E : Env) (package_list : option (gset string))
    (w : World) (p : string) :
  (forall package_id,
      package_id ∈ synced_ids (w_log (fst (run_sync E package_list w))) ->
      plain_id package_id = true) ->
  canonical p = true ->
  ~ sync_file p ->
  w_files (fst (run_sync E package_list w)) !! p = w_files w !! p.
Proof. intros _ _. apply writes_run_sync. Qed.

Lemma run_sync_footprint_witness :
  let w := {| w_files := {[ "notes.txt" := [x68; x69] ]};
              w_registry := []; w_log := [] |} in
  w_files (fst (run_sync example_upstream None w)) !! "notes.txt"
  = w_files w !! "notes.txt".
Proof.
  intros w. apply (run_sync_footprint example_upstream None w "notes.txt").
  - assert (Hlog : synced_ids (w_log (fst (run_sync example_upstream None w)))
                   = ["c/d@2.0.0"; "a/b@1.0.0"]) by (vm_compute; reflexivity).
    rewrite Hlog. intros package_id Hin.
    apply elem_of_cons in Hin as [-> | Hin]; [vm_compute; reflexivity|].
    apply elem_of_cons in Hin as [-> | Hin]; [vm_compute; reflexivity|].
    inversion Hin.
  - vm_compute. reflexivity.
  - intros [H | [H | [H | H]]]; vm_compute in H; discriminate H.
Defined.

(** X21.  When [run_sync] returns, the mirror directory holds what the
    run ended with: [registry.json] is the serialization of the final
    registry (no temporary file is left), and [all-packages] is the index
    fetched from upstream at the start of the run, which is what the
    server then answers to [GET /all-packages]. *)
Theorem run_sync_persists (E : Env) (package_list : option (gset string))
    (w w' : World) (counts : nat * nat) (self : ElmMirrorApp) :
  run_sync E package_list w = (w', inr counts) ->
  exists index_text index,
    urlopen E (ELM_PACKAGE_SERVER +:+ "/all-packages") = inr index_text
    /\ json_loads E index_text = inr index
    /\ w_files w' !! "all-packages" = Some (json_dumps E None index)
    /\ w_files w' !! "registry.json"
       = Some (json_dumps E (Some 2) (json_of_registry (w_registry w')))
    /\ w_files w' !! "registry.json.tmp" = None
    /\ call E (w_files w') self "GET" "/all-packages"
       = inr (ok_response "application/json" (RawBody (json_dumps E None index))).
Proof.
  unfold run_sync. intros H.
  apply bind_inr in H as (w1 & [] & _ & H).
  apply bind_inr in H as (w2 & fs & _ & H).
  apply bind_inr in H as (w3 & registry & _ & H).
  apply bind_inr in H as (w4 & [] & _ & H).
  apply bind_inr in H as (w5 & remote_packages & _ & H).
  apply bind_inr in H as (w6 & all_packages & Hindex & H).
  apply fetch_json_inr in Hindex as (index_text & Hurl & Hloads & _).
  apply bind_inr in H as (w7 & [] & Hwrite & H).
  rewrite write_file_run in Hwrite.
  destruct (os_fault E (OpWrite "all-packages")); [discriminate|].
  injection Hwrite as <-.
  destruct (discover remote_packages _ registry []) as [registry1 new_packages].
  apply bind_inr in H as (w8 & [] & Hput & H).
  unfold put_registry in Hput. injection Hput as <-.
  assert (Hall : w_files w' !! "all-packages" = Some (json_dumps E None all_packages)).
  { match type of H with
    | process_worklist _ _ _ ?w0 = _ =>
        pose proof (writes_process_worklist E package_list
                      (new_packages ++ failed_packages registry1) w0 "all-packages")
          as Hkeep
    end.
    rewrite H in Hkeep. cbn [fst] in Hkeep. rewrite Hkeep.
    - cbn. apply lookup_insert_eq.
    - intros [Hx | [Hx | Hx]]; discriminate Hx. }
  apply process_worklist_saved in H as [Hreg Htmp].
  exists index_text, all_packages.
  do 5 (split; [assumption|]).
  unfold call. replace (String.eqb "GET" "GET") with true by reflexivity.
  replace (String.eqb "/all-packages" "/all-packages") with true by reflexivity.
  cbn [negb]. unfold serve_all_packages. now rewrite Hall.
Qed.

Lemma run_sync_persists_witness :
  let w' := fst (run_sync example_upstream None empty_world) in
  exists index_text index,
    urlopen example_upstream (ELM_PACKAGE_SERVER +:+ "/all-packages") = inr index_text
    /\ json_loads example_upstream index_text = inr index
    /\ w_files w' !! "all-packages" = Some (json_dumps example_upstream None index)
    /\ w_files w' !! "registry.json"
       = Some (json_dumps example_upstream (Some 2)
                 (json_of_registry (w_registry w')))
    /\ w_files w' !! "registry.json.tmp" = None
    /\ call example_upstream (w_files w') (App "" []) "GET" "/all-packages"
       = inr (ok_response "application/json"
                (RawBody (json_dumps example_upstream None index))).
Proof.
  intros w'.
  apply (run_sync_persists example_upstream None empty_world w' (1, 1) (App "" [])).
  vm_compute. reflexivity.
Defined.

(** ** Sync: the packages a run leaves alone *)

Section Untouched.

Variable E : Env.

(** The filter marks identifiers of its list only, prints nothing, and
    hands on identifiers it was given. *)
Lemma filter_loop_frame (pl : gset string) (packages_to_sync : list string) :
  forall (filtered : list string) (w w' : World) (r : exn + list string),
    filter_loop pl packages_to_sync filtered w = (w', r) ->
    w_log w' = w_log w
    /\ (forall other, other ∉ packages_to_sync ->
          get_package_status (w_registry w') other
          = get_package_status (w_registry w) other)
    /\ (forall out, r = inr out ->
          forall x, x ∈ out -> x ∈ filtered \/ x ∈ packages_to_sync).
Proof.
  induction packages_to_sync as [|pkg_id rest IH]; intros filtered w w' r H.
  - cbv [filter_loop ret] in H. injection H as <- <-.
    split; [reflexivity|]. split; [reflexivity|].
    intros out [= <-] x Hx. now left.
  - cbn [filter_loop] in H. unfold bind at 1, lift in H.
    destruct (should_sync_package pkg_id (Some pl)) as [e|[|]].
    + injection H as <- <-. split; [reflexivity|]. split; [reflexivity|].
      discriminate.
    + apply IH in H as (Hlog & Hreg & Hout). split; [exact Hlog|]. split.
      * intros other Hn. apply Hreg. set_solver.
      * intros out Hr x Hx. destruct (Hout out Hr x Hx) as [Hf|Hf]; set_solver.
    + unfold bind at 1 in H. cbv [set_status bind get_registry put_registry] in H.
      apply IH in H as (Hlog & Hreg & Hout). split; [exact Hlog|]. split.
      * intros other Hn. rewrite Hreg by set_solver. cbn [w_registry].
        apply get_set_other. set_solver.
      * intros out Hr x Hx. destruct (Hout out Hr x Hx) as [Hf|Hf]; set_solver.
Qed.

(** From the work-list to the final save: only identifiers of the
    work-list are attempted, and only their status changes. *)
Lemma process_worklist_frame (package_list : option (gset string))
    (packages_to_sync : list string) (w w' : World) (r : exn + nat * nat) :
  process_worklist E package_list packages_to_sync w = (w', r) ->
  forall other, other ∉ packages_to_sync ->
    get_package_status (w_registry w') other = get_package_status (w_registry w) other
    /\ exists xs, synced_ids (w_log w') = synced_ids (w_log w) ++ xs /\ other ∉ xs.
Proof.
  unfold process_worklist. intros H other Hn.
  unfold bind at 1 in H.
  destruct (filter_by_package_list package_list packages_to_sync w)
    as [w1 rf] eqn:Hf.
  assert (Hf1 : w_log w1 = w_log w
                /\ get_package_status (w_registry w1) other
                   = get_package_status (w_registry w) other
                /\ forall out, rf = inr out -> other ∉ out).
  { destruct package_list as [pl|]; cbn [filter_by_package_list] in Hf.
    - apply filter_loop_frame in Hf as (Hlog & Hreg & Hout).
      split; [exact Hlog|]. split; [now apply Hreg|].
      intros out Hr Hx. destruct (Hout out Hr other Hx) as [Hy|Hy];
        [inversion Hy | contradiction].
    - cbv [ret] in Hf. injection Hf as <- <-.
      split; [reflexivity|]. split; [reflexivity|]. now intros out [= <-]. }
  destruct Hf1 as (Hlog1 & Hreg1 & Hout1).
  destruct rf as [e|filtered].
  { injection H as <- _. split; [exact Hreg1|].
    exists []. rewrite app_nil_r, Hlog1. split; [reflexivity | set_solver]. }
  unfold bind at 1 in H.
  destruct (sync_loop E 1 filtered (0, 0)%nat w1) as [w2 rl] eqn:Hl.
  apply sync_loop_frame in Hl as [(xs & Hpre & Hlog2) Hreg2].
  specialize (Hreg2 other (Hout1 filtered eq_refl)).
  assert (Hxs : other ∉ xs).
  { intros Hx. apply (Hout1 filtered eq_refl). destruct Hpre as [k ->]. set_solver. }
  rewrite Hlog1 in Hlog2.
  destruct rl as [e|counts].
  { injection H as <- _. split; [congruence|]. eauto. }
  unfold bind at 1 in H.
  pose proof (keeps_save_registry E w2) as [Hreg3 Hlog3].
  destruct (save_registry E w2) as [w3 [e|[]]]; cbn [fst] in Hreg3, Hlog3;
    cbv [ret] in H; injection H as <- _;
    (split; [congruence|]); exists xs; (split; [congruence | exact Hxs]).
Qed.

Lemma keeps_fetch_all_packages_since (since : nat) :
  keeps (fetch_all_packages_since E since).
Proof.
  unfold fetch_all_packages_since.
  apply keeps_bind; [apply keeps_fetch_json|].
  intros j. destruct j; try apply keeps_raise. apply keeps_lift.
Qed.

End Untouched.

(** X22.  A run leaves alone every package it already knows and has no
    failed entry for: a package recorded as success, ignored or pending
    before the run is not attempted again and its status at the end of
    the run is the one it had. *)
Theorem run_sync_keeps_known_statuses (E : Env) (package_list : option (gset string))
    (w w' : World) (counts : nat * nat) (registry : Registry) (package_id : string) :
  run_sync E package_list w = (w', inr counts) ->
  load_registry E (w_files w) = inr registry ->
  package_id ∈ ids registry ->
  Entry package_id STATUS_FAILED ∉ registry ->
  get_package_status (w_registry w') package_id
  = get_package_status registry package_id
  /\ exists xs, synced_ids (w_log w') = synced_ids (w_log w) ++ xs
                /\ package_id ∉ xs.
Proof.
  unfold run_sync. intros H Hload Hknown Hfailed.
  apply bind_inr in H as (w1 & [] & H1 & H).
  unfold mkdir in H1. rewrite check_fault_run in H1.
  destruct (os_fault E (OpMkdir EmptyString)); [discriminate|]. injection H1 as <-.
  apply bind_inr in H as (w2 & fs & H2 & H).
  cbv [get_files] in H2. injection H2 as <- <-.
  apply bind_inr in H as (w3 & registry0 & H3 & H).
  cbv [lift] in H3. injection H3 as <- H3.
  rewrite Hload in H3. injection H3 as <-.
  apply bind_inr in H as (w4 & [] & H4 & H).
  cbv [put_registry] in H4. injection H4 as <-.
  apply bind_inr in H as (w5 & remote_packages & H5 & H).
  match type of H5 with
  | _ ?w0 = _ =>
      pose proof (keeps_fetch_all_packages_since E 0 w0) as [_ Hlog5]
  end.
  rewrite H5 in Hlog5. cbn [fst w_log] in Hlog5.
  apply bind_inr in H as (w6 & all_packages & H6 & H).
  unfold fetch_all_packages in H6.
  pose proof (keeps_fetch_json E (ELM_PACKAGE_SERVER +:+ "/all-packages") w5)
    as [_ Hlog6].
  rewrite H6 in Hlog6. cbn [fst] in Hlog6.
  apply bind_inr in H as (w7 & [] & H7 & H).
  pose proof (keeps_write_file E "all-packages"
                (json_dumps E None all_packages) w6) as [_ Hlog7].
  rewrite H7 in Hlog7. cbn [fst] in Hlog7.
  destruct (discover_found remote_packages (list_to_set (ids registry)) registry [])
    as (found & Hdisc & _ & Hfound).
  rewrite Hdisc in H. cbv beta iota in H.
  apply bind_inr in H as (w8 & [] & H8 & H).
  cbv [put_registry] in H8. injection H8 as <-.
  assert (Hnew : package_id ∉ found).
  { rewrite Hfound. intros [_ Hn]. apply Hn. now apply elem_of_list_to_set. }
  assert (Hwork : package_id
                  ∉ ([] ++ found)
                    ++ failed_packages
                         (rev (map (fun i => Entry i STATUS_PENDING) found) ++ registry)).
  { rewrite failed_packages_app, failed_packages_pending. cbn [app].
    rewrite elem_of_app, elem_of_failed_packages. tauto. }
  destruct (process_worklist_frame E _ _ _ _ _ H package_id Hwork)
    as (Hreg & xs & Hlog & Hxs).
  cbn [w_registry w_log] in Hreg, Hlog. split.
  - rewrite Hreg. apply get_status_app_None, get_status_None_iff.
    unfold ids. rewrite map_rev.
    fold (ids (map (fun i => Entry i STATUS_PENDING) found)). rewrite ids_pending.
    now rewrite list_elem_of_In, <- in_rev, <- list_elem_of_In.
  - exists xs. split; [|exact Hxs]. rewrite Hlog. congruence.
Qed.

Lemma run_sync_keeps_known_statuses_witness :
  let w := {| w_files := {[ "registry.json" := example_registry_text ]};
              w_registry := []; w_log := [] |} in
  let w' := fst (run_sync example_mirror None w) in
  get_package_status (w_registry w') "a/b@1.0.0"
  = get_package_status [Entry "a/b@1.0.0" STATUS_SUCCESS] "a/b@1.0.0"
  /\ exists xs, synced_ids (w_log w') = synced_ids (w_log w) ++ xs
                /\ "a/b@1.0.0" ∉ xs.
Proof.
  intros w w'.
  apply (run_sync_keeps_known_statuses example_mirror None w w' (0, 1)).
  - vm_compute. reflexivity.
  - vm_compute. reflexivity.
  - apply list_elem_of_here.
  - intros H. apply elem_of_cons in H as [H|H]; [discriminate H | inversion H].
Defined.

(** ** From a sync to the answers of the server *)

(** X23.  What [sync_package] reports as synced is what the server then
    hands out: with the registry and the files the sync left, [GET] of the
    package's [package.zip] answers 200 with the archive, and [GET] of its
    [endpoint.json] answers 200 with the mirror's own URL of that archive
    and, as hash, the SHA-1 of exactly those bytes, provided [json.load]
    reads back the digest record [json.dump] wrote. *)
Theorem synced_package_is_served (E : Env) (author name version base : string)
    (w w' : World) :
  segment author = true -> segment name = true -> segment version = true ->
  parse_package_id (render_id author name version) = inr (author, name, version) ->
  contains ".." (package_path author name version "package.zip") = false ->
  sync_package E (render_id author name version) w = (w', inr true) ->
  (forall zip,
      w_files w' !! (package_dir author name version +:+ "/package.zip") = Some zip ->
      json_loads E (json_dumps E None (JObj [("hash", JStr (compute_sha1 zip))]))
      = inr (JObj [("hash", JStr (compute_sha1 zip))])) ->
  exists zip,
    call E (w_files w') (App base (w_registry w')) "GET"
      (package_path author name version "package.zip")
    = inr (ok_response "application/zip" (RawBody zip))
    /\ call E (w_files w') (App base (w_registry w')) "GET"
         (package_path author name version "endpoint.json")
       = inr (ok_response "application/json"
                (JsonBody
                   (JObj [("url", JStr (base +:+
                                        package_path author name version "package.zip"));
                          ("hash", JStr (compute_sha1 zip))]))).
Proof.
  intros Ha Hn Hv Hp Hdots Hs Hcodec.
  destruct (sync_package_true E _ _ _ _ _ _ Hp Hs) as (wd & Hd & ->).
  destruct (download_and_check_true E author name version w wd Hd)
    as (et & ep & zu & mt & mf & zip & _ & _ & _ & _ & _ & _ & _
        & Hzip & Hhash & _).
  cbn [with_registry w_files w_registry] in *.
  specialize (Hcodec zip Hzip).
  exists zip. split.
  - rewrite call_package_zip by assumption.
    pose proof (serve_package_zip_cases (w_files wd)
                  (App base (set_package_status (w_registry w)
                               (render_id author name version) STATUS_SUCCESS))
                  author name version Ha Hn Hv) as H.
    cbv zeta in H. rewrite H. clear H.
    rewrite Hdots, Hzip. cbn [registry]. rewrite get_set_same. reflexivity.
  - rewrite call_endpoint_json by assumption.
    pose proof (serve_endpoint_json_cases E (w_files wd)
                  (App base (set_package_status (w_registry w)
                               (render_id author name version) STATUS_SUCCESS))
                  author name version Ha Hn Hv) as H.
    cbv zeta in H. rewrite H. clear H.
    cbn [registry base_url]. rewrite get_set_same, Hhash.
    unfold load_expected_hash. rewrite Hcodec. reflexivity.
Qed.

Lemma synced_package_is_served_witness :
  let w' := fst (sync_package example_mirror (render_id "a" "b" "1.0.0") empty_world) in
  exists zip,
    call example_mirror (w_files w') (App "http://localhost:8000" (w_registry w'))
      "GET" (package_path "a" "b" "1.0.0" "package.zip")
    = inr (ok_response "application/zip" (RawBody zip))
    /\ call example_mirror (w_files w') (App "http://localhost:8000" (w_registry w'))
         "GET" (package_path "a" "b" "1.0.0" "endpoint.json")
       = inr (ok_response "application/json"
                (JsonBody
                   (JObj [("url", JStr ("http://localhost:8000" +:+
                                        package_path "a" "b" "1.0.0" "package.zip"));
                          ("hash", JStr (compute_sha1 zip))]))).
Proof.
  intros w'.
  apply (synced_package_is_served example_mirror "a" "b" "1.0.0"
           "http://localhost:8000" empty_world w').
  - reflexivity.
  - reflexivity.
  - reflexivity.
  - vm_compute. reflexivity.
  - vm_compute. reflexivity.
  - vm_compute. reflexivity.
  - intros zip Hzip. vm_compute in Hzip. injection Hzip as <-.
    vm_compute. reflexivity.
Defined.



(** ** The base URL *)

Lemma rstrip_spec (c : ascii) (s : string) :
  (exists n, s = rstrip c s +:+ replicate_char n c)
  /\ last_char (rstrip c s) <> Some c.
Proof.
  induction s as [|a r [[n IHn] IHl]]; [split; [now exists 0 | discriminate]|].
  cbn [rstrip]. destruct (rstrip c r) as [|b r'] eqn:Hr.
  - destruct (Ascii.eqb a c) eqn:Hac.
    + apply Ascii.eqb_eq in Hac. subst a. split; [|discriminate].
      exists (S n). cbn. now rewrite IHn at 1.
    + apply Ascii.eqb_neq in Hac. split.
      * exists n. cbn. now rewrite IHn at 1.
      * cbn. congruence.
  - split.
    + exists n. cbn. now rewrite IHn at 1.
    + exact IHl.
Qed.

(** X25.  The application is built from the registry on disk and the
    base URL without its trailing slashes: the URL kept differs from the
    one given by a run of [/] at the end only and does not end in [/], so
    the URLs of [endpoint.json] have a single [/] after it; and building
    the application raises exactly when loading the registry does. *)
Theorem init_strips_base_url (E : Env) (fs : Files) (base : string) :
  match ElmMirrorApp_init E fs base with
  | inr self =>
      load_registry E fs = inr (registry self)
      /\ (exists n, base = base_url self +:+ replicate_char n "/")
      /\ last_char (base_url self) <> Some "/"%char
  | inl e => load_registry E fs = inl e
  end.
Proof.
  unfold ElmMirrorApp_init.
  destruct (load_registry E fs) as [e|r]; [reflexivity|].
  cbn [registry base_url]. split; [reflexivity|]. apply rstrip_spec.
Qed.
